(** * wifi.scheme: saved wireless schemes in /etc/network/interfaces

    A shallow embedding of [wifi/scheme.py] and the properties of its
    configuration builder, stanza grammar, store and activation.

    Text is modelled as [string]: one [ascii] per character, read as the
    code point of that number (0..255).  The character classes below are
    the ones CPython 3 uses for [str] on those code points; option
    mappings are insertion-ordered association lists, as [dict] is. *)

From Stdlib Require Import String Ascii List Bool Arith Lia.
Import ListNotations.
Open Scope string_scope.
Open Scope bool_scope.
Open Scope nat_scope.

(** ** Python built-ins used by the module *)

Module Py.

Definition code (c : ascii) : nat := nat_of_ascii c.

Definition between (lo hi : nat) (c : ascii) : bool :=
  (lo <=? code c) && (code c <=? hi).

(** [str.isspace], also the class [\s] of [re] on [str] patterns. *)
Definition is_space (c : ascii) : bool :=
  between 9 13 c || between 28 32 c || (code c =? 133) || (code c =? 160).

(** The line boundaries of [str.splitlines]. *)
Definition is_linebreak (c : ascii) : bool :=
  between 10 13 c || between 28 30 c || (code c =? 133).

(** The class [\d] of [re]. *)
Definition is_digit (c : ascii) : bool := between 48 57 c.

(** The class [\w] of [re]: alphanumeric characters and the underscore. *)
Definition is_word (c : ascii) : bool :=
  between 48 57 c || between 65 90 c || (code c =? 95) || between 97 122 c
  || (code c =? 170) || between 178 179 c || (code c =? 181)
  || between 185 186 c || between 188 190 c || between 192 214 c
  || between 216 246 c || between 248 255 c.

Definition LF : ascii := ascii_of_nat 10.
Definition CR : ascii := ascii_of_nat 13.
Definition DQUOTE : ascii := ascii_of_nat 34.
Definition NL : string := String LF EmptyString.

Definition is_empty (s : string) : bool :=
  match s with EmptyString => true | String _ _ => false end.

(** [s.startswith(p)] *)
Definition startswith (p s : string) : bool := String.prefix p s.

(** [s.lstrip()], [s.rstrip()] and [s.strip()] with no argument. *)
Fixpoint lstrip (s : string) : string :=
  match s with
  | EmptyString => EmptyString
  | String c rest => if is_space c then lstrip rest else s
  end.

Fixpoint rstrip (s : string) : string :=
  match s with
  | EmptyString => EmptyString
  | String c rest =>
      let r := rstrip rest in
      if is_space c && is_empty r then EmptyString else String c r
  end.

Definition strip (s : string) : string := rstrip (lstrip s).

(** [s.splitlines()]: the lines without their terminators; a CR LF pair
    is one boundary and a final terminator opens no new line. *)
Fixpoint splitlines (s : string) : list string :=
  match s with
  | EmptyString => []
  | String c rest =>
      if is_linebreak c then
        match rest with
        | String c' rest' =>
            if Ascii.eqb c CR && Ascii.eqb c' LF
            then EmptyString :: splitlines rest'
            else EmptyString :: splitlines rest
        | EmptyString => [EmptyString]
        end
      else
        match splitlines rest with
        | [] => [String c EmptyString]
        | l :: ls => String c l :: ls
        end
  end.

(** Iterating over a text file ([for line in f]): the lines with their
    terminating newline kept; only the last one may lack it. *)
Fixpoint readlines (s : string) : list string :=
  match s with
  | EmptyString => []
  | String c rest =>
      if Ascii.eqb c LF then NL :: readlines rest
      else
        match readlines rest with
        | [] => [String c EmptyString]
        | l :: ls => String c l :: ls
        end
  end.

(** [''.join(parts)] *)
Fixpoint join (parts : list string) : string :=
  match parts with
  | [] => EmptyString
  | p :: ps => p ++ join ps
  end.

Definition head_is_space (s : string) : bool :=
  match s with EmptyString => false | String c _ => is_space c end.

(** [re.sub(r'\s{2,}', ' ', s)]: every maximal run of two or more
    whitespace characters becomes one space.  [in_run] tells that the
    run being read has been replaced already. *)
Fixpoint sub_ws_runs (in_run : bool) (s : string) : string :=
  match s with
  | EmptyString => EmptyString
  | String c rest =>
      if is_space c then
        if in_run then sub_ws_runs true rest
        else if head_is_space rest then String " " (sub_ws_runs true rest)
        else String c (sub_ws_runs false rest)
      else String c (sub_ws_runs false rest)
  end.

Definition re_sub_ws (s : string) : string := sub_ws_runs false s.

(** [s.split(' ', 1)]: at most one split, at the first space. *)
Fixpoint split_space_1 (s : string) : list string :=
  match s with
  | EmptyString => [EmptyString]
  | String c rest =>
      if Ascii.eqb c " " then [EmptyString; rest]
      else
        match split_space_1 rest with
        | l :: ls => String c l :: ls
        | [] => [String c EmptyString]
        end
  end.

(** [dict] with string keys: an association list in insertion order
    whose keys are pairwise distinct. *)
Definition dict (V : Type) : Type := list (string * V).

Fixpoint dict_set {V} (k : string) (v : V) (d : dict V) : dict V :=
  match d with
  | [] => [(k, v)]
  | (k', v') :: d' =>
      if String.eqb k' k then (k', v) :: d' else (k', v') :: dict_set k v d'
  end.

Fixpoint dict_get {V} (k : string) (d : dict V) : option V :=
  match d with
  | [] => None
  | (k', v') :: d' => if String.eqb k' k then Some v' else dict_get k d'
  end.

Definition keys {V} (d : dict V) : list string := map fst d.

Definition hex_digit (n : nat) : ascii :=
  ascii_of_nat (if n <? 10 then 48 + n else 87 + n).

(** [repr] of a [str]. *)
Definition is_printable (c : ascii) : bool :=
  negb (between 0 31 c || between 127 160 c || (code c =? 173)).

Fixpoint contains_char (q : ascii) (s : string) : bool :=
  match s with
  | EmptyString => false
  | String c rest => Ascii.eqb c q || contains_char q rest
  end.

Definition repr_quote (s : string) : ascii :=
  if contains_char "'" s && negb (contains_char DQUOTE s) then DQUOTE
  else "'"%char.

Definition repr_char (q c : ascii) : string :=
  if Ascii.eqb c q || Ascii.eqb c "\"
  then String "\" (String c EmptyString)
  else if code c =? 9 then "\t"
  else if code c =? 10 then "\n"
  else if code c =? 13 then "\r"
  else if is_printable c then String c EmptyString
  else String "\" (String "x"
         (String (hex_digit (code c / 16))
            (String (hex_digit (code c mod 16)) EmptyString))).

Fixpoint repr_body (q : ascii) (s : string) : string :=
  match s with
  | EmptyString => EmptyString
  | String c rest => repr_char q c ++ repr_body q rest
  end.

Definition repr_str (s : string) : string :=
  let q := repr_quote s in
  String q (repr_body q s ++ String q EmptyString).

End Py.

Import Py.

(** ** Exceptions and results *)

Inductive exn : Type :=
| AssertionError (msg : string)
| ValueError
| TypeError
| NotImplementedError
| ConnectionError (msg : string)
| CalledProcessError (returncode : nat).

Inductive result (A : Type) : Type :=
| Ok (a : A)
| Raise (e : exn).
Arguments Ok {A} a.
Arguments Raise {A} e.

(** What a generator does when it is run to its end: the elements it
    yields, then [None] if it returns or [Some e] if it raises [e]. *)
Definition trace (A : Type) : Type := (list A * option exn)%type.

Definition finished {A} : trace A := ([], None).
Definition raised {A} (e : exn) : trace A := ([], Some e).
Definition yield {A} (a : A) (t : trace A) : trace A := (a :: fst t, snd t).

(** [list(gen)] *)
Definition to_list {A} (t : trace A) : result (list A) :=
  match snd t with
  | None => Ok (fst t)
  | Some e => Raise e
  end.

(** ** The configuration builder *)

Record Cell : Type := {
  ssid : string;
  encrypted : bool;
  encryption_type : string
}.

Section Configuration.

(** The [pbkdf2] package: [PBKDF2(passphrase, salt, iterations)] and its
    method [hexread(octets)]. *)
Variable kdf : Type.
Variable PBKDF2 : string -> string -> nat -> kdf.
Variable hexread : kdf -> nat -> string.

(** Option values are Python objects that are a [str] or [None]. *)
Definition configuration (cell : Cell) (passkey : option string)
  : result (dict (option string)) :=
  if negb (encrypted cell) then
    Ok [("wireless-essid", Some (ssid cell));
        ("wireless-channel", Some "auto")]
  else if startswith "wpa" (encryption_type cell) then
    match passkey with
    | None => Raise TypeError
    | Some secret =>
        let passkey :=
          if negb (String.length secret =? 64)
          then hexread (PBKDF2 secret (ssid cell) 4096) 32
          else secret in
        Ok [("wpa-ssid", Some (ssid cell));
            ("wpa-psk", Some passkey);
            ("wireless-channel", Some "auto")]
    end
  else if String.eqb (encryption_type cell) "wep" then
    Ok [("wireless-essid", Some (ssid cell));
        ("wireless-key", passkey)]
  else Raise NotImplementedError.

End Configuration.

(** ** Schemes and their text *)

Record Scheme : Type := {
  interface : string;
  name : string;
  options : dict string
}.

(** [Scheme.__str__] *)
Definition Scheme_str (self : Scheme) : string :=
  let iface := "iface " ++ interface self ++ "-" ++ name self ++ " inet dhcp" in
  let options :=
    join (map (fun kv => NL ++ "    " ++ fst kv ++ " " ++ snd kv)
              (options self)) in
  iface ++ options ++ NL.

(** [repr] of a [dict] of strings. *)
Fixpoint repr_items (d : dict string) : string :=
  match d with
  | [] => EmptyString
  | (k, v) :: d' =>
      repr_str k ++ ": " ++ repr_str v ++
      (match d' with [] => EmptyString | _ :: _ => ", " ++ repr_items d' end)
  end.

Definition repr_dict (d : dict string) : string := "{" ++ repr_items d ++ "}".

(** [Scheme.__repr__] *)
Definition Scheme_repr (self : Scheme) : string :=
  "Scheme(interface=" ++ repr_str (interface self) ++
  ", name=" ++ repr_str (name self) ++
  ", options=" ++ repr_dict (options self).

(** [Scheme.iface] *)
Definition Scheme_iface (self : Scheme) : string :=
  interface self ++ "-" ++ name self.

(** [Scheme.as_args] *)
Definition Scheme_as_args (self : Scheme) : list string :=
  let args := flat_map (fun kv => ["-o"; fst kv ++ "=" ++ snd kv]) (options self) in
  [interface self ++ "=" ++ Scheme_iface self] ++ args.

(** ** The parser *)

Fixpoint strip_prefix (p s : string) : option string :=
  match p, s with
  | EmptyString, _ => Some s
  | String a p', String b s' => if Ascii.eqb a b then strip_prefix p' s' else None
  | String _ _, EmptyString => None
  end.

(** The longest prefix of [s] made of characters of the class [f], and
    what follows it. *)
Fixpoint span (f : ascii -> bool) (s : string) : string * string :=
  match s with
  | EmptyString => (EmptyString, EmptyString)
  | String c rest =>
      if f c then let (a, b) := span f rest in (String c a, b)
      else (EmptyString, s)
  end.

(** [scheme_re.match(line)] followed by [.groups()], for
    [iface\s+(?P<interface>wlan\d?)(?:-(?P<name>\w+))?]: [None] when the
    line does not match, else the interface and the name, the latter
    [None] when the optional group took no part in the match. *)
Definition scheme_re_match (line : string) : option (string * option string) :=
  match strip_prefix "iface" line with
  | None => None
  | Some after_iface =>
      let (ws, after_ws) := span is_space after_iface in
      if is_empty ws then None
      else
        match strip_prefix "wlan" after_ws with
        | None => None
        | Some after_wlan =>
            let (interface, after_interface) :=
              match after_wlan with
              | String d rest =>
                  if is_digit d then ("wlan" ++ String d EmptyString, rest)
                  else ("wlan", after_wlan)
              | EmptyString => ("wlan", after_wlan)
              end in
            match after_interface with
            | String "-" rest =>
                let (w, _) := span is_word rest in
                if is_empty w then Some (interface, None)
                else Some (interface, Some w)
            | _ => Some (interface, None)
            end
        end
  end.

(** [key, value = re.sub(r'\s{2,}', ' ', line.strip()).split(' ', 1)] *)
Definition parse_option_line (line : string) : result (string * string) :=
  match split_space_1 (re_sub_ws (strip line)) with
  | [key; value] => Ok (key, value)
  | _ => Raise ValueError
  end.

(** The loop of [extract_schemes] over the list of lines; the inner loop
    reads the option lines of the stanza whose header was just matched. *)
Fixpoint extract_lines (lines : list string) : trace Scheme :=
  match lines with
  | [] => finished
  | line :: lines =>
      if startswith "#" line || is_empty line then extract_lines lines
      else
        match scheme_re_match line with
        | Some (interface, Some scheme) =>
            (fix option_lines (lines : list string) (options : dict string)
               {struct lines} : trace Scheme :=
               match lines with
               | l :: lines' =>
                   if startswith " " l then
                     match parse_option_line l with
                     | Ok (key, value) =>
                         option_lines lines' (dict_set key value options)
                     | Raise e => raised e
                     end
                   else
                     yield (Build_Scheme interface scheme options)
                           (extract_lines lines)
               | [] => yield (Build_Scheme interface scheme options) finished
               end) lines []
        | _ => extract_lines lines
        end
  end.

Definition extract_schemes (interfaces : string) : trace Scheme :=
  extract_lines (splitlines interfaces).

(** ** The store

    The state of the store is the text of the interfaces file, which is
    taken to exist ([ensure_file_exists] then has nothing to do); it is
    the text a text-mode file object delivers, where a line ends at a
    newline.  An operation that writes returns the new text. *)

(** [Scheme.all] *)
Definition Scheme_all (file : string) : trace Scheme := extract_schemes file.

(** [Scheme.where] *)
Definition Scheme_where (fn : Scheme -> bool) (file : string)
  : result (list Scheme) :=
  match to_list (Scheme_all file) with
  | Ok schemes => Ok (filter fn schemes)
  | Raise e => Raise e
  end.

(** [Scheme.find] *)
Definition Scheme_find (interface' name' : string) (file : string)
  : result (option Scheme) :=
  match Scheme_where
          (fun s => String.eqb (interface s) interface'
                    && String.eqb (name s) name') file with
  | Ok (s :: _) => Ok (Some s)
  | Ok [] => Ok None
  | Raise e => Raise e
  end.

(** [Scheme.save]: the outcome and the text of the file afterwards. *)
Definition Scheme_save (self : Scheme) (file : string) : result unit * string :=
  match Scheme_find (interface self) (name self) file with
  | Raise e => (Raise e, file)
  | Ok (Some _) => (Raise (AssertionError "This scheme already exists"), file)
  | Ok None => (Ok tt, file ++ NL ++ Scheme_str self)
  end.

(** One turn of the loop of [Scheme.delete] on the pair [(skip, content)]. *)
Definition delete_step (iface : string) (st : bool * string) (line : string)
  : bool * string :=
  let (skip, content) := st in
  let skip :=
    if is_empty (strip line) then false
    else if String.eqb (strip line) iface then true
    else skip in
  (skip, if negb skip then content ++ line else content).

Definition header_of (self : Scheme) : string :=
  "iface " ++ interface self ++ "-" ++ name self ++ " inet dhcp".

(** [Scheme.delete]: the text of the file afterwards. *)
Definition Scheme_delete (self : Scheme) (file : string) : string :=
  let iface := header_of self in
  snd (fold_left (delete_step iface) (readlines file) (false, EmptyString)).

(** ** Activation *)

Section Activation.

(** The collaborators: [subprocess.check_output] on an argument vector,
    and [Connection.current_for_scheme], which gives a connection or
    [None]. *)
Variable Output : Type.
Variable Connection : Type.
Variable check_output : list string -> result Output.
Variable current_for_scheme : Scheme -> option Connection.

(** [Scheme.activate]: what is printed, and the outcome. *)
Definition Scheme_activate (self : Scheme) : list Output * result Connection :=
  match check_output ["/sbin/ifdown"; interface self] with
  | Raise e => ([], Raise e)
  | Ok _ =>
      match check_output (["/sbin/ifup"] ++ Scheme_as_args self) with
      | Raise e => ([], Raise e)
      | Ok output =>
          match current_for_scheme self with
          | None =>
              ([output],
               Raise (ConnectionError ("Failed to connect to " ++ Scheme_repr self)))
          | Some connection => ([], Ok connection)
          end
      end
  end.

End Activation.

(** ** Concrete runs *)

Definition home : Scheme :=
  {| interface := "wlan0"; name := "home";
     options := [("wpa-ssid", "Cafe"); ("wpa-psk", "0123"); ("wireless-channel", "auto")] |}.


Definition foreign_file : string :=
  "# The loopback interface" ++ NL ++ "auto lo" ++ NL ++ NL
  ++ "iface eth0 inet dhcp" ++ NL ++ "    pre-up ip link" ++ NL
  ++ "iface wlan0 inet dhcp" ++ NL.

(** A scheme for a network whose name has two spaces in a row. *)
Definition cafe : Scheme :=
  {| interface := "wlan0"; name := "cafe";
     options := [("wireless-essid", "My  Cafe"); ("wireless-channel", "auto")] |}.

(** Files for the store. *)
Definition work_header : string := "iface wlan0-work inet dhcp".

Definition two_stanzas : string :=
  "# wifi" ++ NL ++ Scheme_str home ++ NL ++ work_header ++ NL
  ++ "    wireless-essid Office" ++ NL.

Definition header_with_trailing_space : string :=
  "iface wlan0-home inet dhcp " ++ NL ++ "    wpa-ssid Cafe" ++ NL.

(** A WPA cell, a WEP cell, an open cell and a cell of another kind. *)
Definition wpa_cell : Cell :=
  {| ssid := "Cafe"; encrypted := true; encryption_type := "wpa2" |}.

Definition open_cell : Cell :=
  {| ssid := "Cafe"; encrypted := false; encryption_type := "" |}.

Definition eap_cell : Cell :=
  {| ssid := "Cafe"; encrypted := true; encryption_type := "eap" |}.

(** A stanza that assigns [wpa-psk] twice. *)
Definition repeated_key_file : string :=
  "iface wlan0-home inet dhcp" ++ NL ++ "    wpa-psk first" ++ NL
  ++ "    wpa-ssid Cafe" ++ NL ++ "    wpa-psk second" ++ NL ++ NL
  ++ "iface eth0 inet dhcp" ++ NL.

(** A stand-in for the [pbkdf2] package that shows its arguments. *)
Definition shown_kdf : Type := (string * string)%type.

Definition shown_PBKDF2 (passphrase salt : string) (iterations : nat)
  : shown_kdf := (passphrase, salt).

Definition shown_hexread (k : shown_kdf) (octets : nat) : string :=
  "PBKDF2(" ++ fst k ++ "," ++ snd k ++ ")".

(** Stand-ins for the commands and the connection lookup: every command
    succeeds with an empty output; the lookup finds a connection, named
    by the interface, for the scheme [home] only. *)
Definition quiet_check_output (argv : list string) : result string :=
  Ok EmptyString.

Definition home_connection (s : Scheme) : option string :=
  if String.eqb (name s) "home" then Some (interface s) else None.

(** ** More of the class *)

(** [d.get(k, default)], where [None] stands for Python's [None]. *)
Definition dict_get_or {V} (k : string) (default : option V) (d : dict V)
  : option V :=
  match dict_get k d with
  | Some v => Some v
  | None => default
  end.

(** [options.get('wpa-ssid', options.get('wireless-essid'))], the body of
    [Scheme.ssid], for a mapping with values of any kind. *)
Definition ssid_of_options {V} (options : dict V) : option V :=
  dict_get_or "wpa-ssid" (dict_get_or "wireless-essid" None options) options.

(** [Scheme.ssid] *)
Definition Scheme_ssid (self : Scheme) : option string :=
  ssid_of_options (options self).

(** An open network, for the runs of the store. *)
Definition guest : Scheme :=
  {| interface := "wlan1"; name := "guest";
     options := [("wireless-essid", "Guest Net"); ("wireless-channel", "auto")] |}.

(** ** Notions used in the statements *)

(** A line is blank for [delete] when stripping leaves nothing, and a
    header of [iface] when stripping leaves exactly [iface]. *)
Definition is_blank (line : string) : bool := is_empty (strip line).

Definition is_header (iface line : string) : bool :=
  negb (is_blank line) && String.eqb (strip line) iface.

(** The lines [delete] keeps, as a recursion on the lines; [skip] is the
    flag of the loop on entry. *)
Fixpoint kept_lines (iface : string) (skip : bool) (lines : list string)
  : list string :=
  match lines with
  | [] => []
  | line :: rest =>
      let skip' :=
        if is_empty (strip line) then false
        else if String.eqb (strip line) iface then true
        else skip in
      if negb skip' then line :: kept_lines iface skip' rest
      else kept_lines iface skip' rest
  end.

(** Lines as a text file has them: each ends with its only newline,
    but for a last line, which may have none and is then not empty. *)
Fixpoint no_newline (s : string) : bool :=
  match s with
  | EmptyString => true
  | String c rest => negb (Ascii.eqb c LF) && no_newline rest
  end.

Inductive full_line : string -> Prop :=
| full_line_intro (body : string) :
    no_newline body = true -> full_line (body ++ NL).

Inductive file_lines : list string -> Prop :=
| file_lines_nil : file_lines []
| file_lines_last (l : string) :
    no_newline l = true -> l <> EmptyString -> file_lines [l]
| file_lines_cons (l : string) (ls : list string) :
    full_line l -> file_lines ls -> file_lines (l :: ls).

(** The option lines that follow a header, read as the inner loop of
    [extract_schemes] reads them: the mapping, and the lines left. *)
Fixpoint read_option_lines (lines : list string) (options : dict string)
  : result (dict string * list string) :=
  match lines with
  | l :: lines' =>
      if startswith " " l then
        match parse_option_line l with
        | Ok (key, value) => read_option_lines lines' (dict_set key value options)
        | Raise e => Raise e
        end
      else Ok (options, lines)
  | [] => Ok (options, [])
  end.

(** The keys of a list in the order of their first occurrences. *)
Definition mem (k : string) (ks : list string) : bool :=
  existsb (String.eqb k) ks.

Fixpoint first_occurrences_from (seen ks : list string) : list string :=
  match ks with
  | [] => []
  | k :: ks' =>
      if mem k seen then first_occurrences_from seen ks'
      else k :: first_occurrences_from (k :: seen) ks'
  end.

Definition first_occurrences (ks : list string) : list string :=
  first_occurrences_from [] ks.

(** The mapping after the pairs are assigned to it one by one. *)
Definition set_all (pairs : list (string * string)) (d : dict string)
  : dict string :=
  fold_left (fun d kv => dict_set (fst kv) (snd kv) d) pairs d.

(** The value bound to [k] by the last pair of [kvs] that has key [k]. *)
Fixpoint last_value (k : string) (kvs : list (string * string)) : option string :=
  match kvs with
  | [] => None
  | (k', v) :: kvs' =>
      match last_value k kvs' with
      | Some v' => Some v'
      | None => if String.eqb k' k then Some v else None
      end
  end.

(** Names the pattern of the parser matches in full: [wlan\d?] and [\w+]. *)
Fixpoint all_chars (f : ascii -> bool) (s : string) : bool :=
  match s with
  | EmptyString => true
  | String c rest => f c && all_chars f rest
  end.

Definition is_interface_name (s : string) : bool :=
  match strip_prefix "wlan" s with
  | Some EmptyString => true
  | Some (String d EmptyString) => is_digit d
  | _ => false
  end.

Definition is_scheme_name (s : string) : bool :=
  negb (is_empty s) && all_chars is_word s.

(** Text that an option line gives back as it was written: not empty,
    no whitespace at either end, no two whitespace characters in a row,
    no line boundary. *)
Definition starts_nonspace (s : string) : bool :=
  match s with
  | EmptyString => false
  | String c _ => negb (is_space c)
  end.

Fixpoint ends_nonspace (s : string) : bool :=
  match s with
  | EmptyString => false
  | String c EmptyString => negb (is_space c)
  | String _ rest => ends_nonspace rest
  end.

Fixpoint no_ws_run (s : string) : bool :=
  match s with
  | EmptyString => true
  | String c rest => negb (is_space c && head_is_space rest) && no_ws_run rest
  end.

Definition no_linebreak (s : string) : bool :=
  all_chars (fun c => negb (is_linebreak c)) s.

Definition clean (s : string) : bool :=
  starts_nonspace s && ends_nonspace s && no_ws_run s && no_linebreak s.

Definition is_option_key (k : string) : bool :=
  clean k && negb (contains_char " " k).

Definition is_option_value (v : string) : bool := clean v.

Definition plain_options (d : dict string) : bool :=
  forallb (fun kv => is_option_key (fst kv) && is_option_value (snd kv)) d.

(** The line [Scheme.__str__] writes for one option. *)
Definition option_line (kv : string * string) : string :=
  "    " ++ fst kv ++ " " ++ snd kv.

(** Lines the parser passes over at the top level: comments, blank
    lines, indented lines, and headers the pattern does not match with
    a name. *)
Definition is_comment (line : string) : bool := startswith "#" line.

Definition all_space (line : string) : bool := all_chars is_space line.

Definition is_indented (line : string) : bool := head_is_space line.

Definition names_scheme (line : string) : bool :=
  match scheme_re_match line with
  | Some (_, Some _) => true
  | _ => false
  end.

Definition passed_over (line : string) : bool :=
  is_comment line || all_space line || is_indented line
  || negb (names_scheme line).

(** A Scheme the stanza grammar can carry: its interface and name are
    matched in full by the pattern of the parser, its keys are pairwise
    distinct and its keys and values are text an option line gives back. *)
Definition parsable (s : Scheme) : Prop :=
  is_interface_name (interface s) = true
  /\ is_scheme_name (name s) = true
  /\ NoDup (keys (options s))
  /\ plain_options (options s) = true.

(** [save] of each Scheme of a list in turn, stopping at the first that
    fails: the outcome and the text of the file afterwards. *)
Fixpoint save_each (schemes : list Scheme) (file : string) : result unit * string :=
  match schemes with
  | [] => (Ok tt, file)
  | s :: rest =>
      match Scheme_save s file with
      | (Ok _, file') => save_each rest file'
      | failure => failure
      end
  end.

(** Two schemes with the same interface and the same name. *)
Definition same_pair (s t : Scheme) : bool :=
  String.eqb (interface t) (interface s) && String.eqb (name t) (name s).

(** No option of [t] is written as a line that reads as the header of [s]. *)
Definition no_option_reads_as_header (s t : Scheme) : bool :=
  forallb (fun kv => negb (String.eqb (fst kv ++ " " ++ snd kv) (header_of s)))
          (options t).

(** The lines [save] adds to a file for a Scheme, and those [delete]
    leaves of them for the Scheme [s]. *)
Definition stanza_lines (t : Scheme) : list string :=
  NL :: (header_of t ++ NL) :: map (fun kv => option_line kv ++ NL) (options t).

Definition lines_left (s t : Scheme) : list string :=
  if same_pair s t then [NL] else stanza_lines t.

(** The interface and the name of a Scheme, which name it in the store. *)
Definition pair_of (s : Scheme) : string * string := (interface s, name s).

Example str_home :
  Scheme_str home =
  "iface wlan0-home inet dhcp" ++ NL ++
  "    wpa-ssid Cafe" ++ NL ++
  "    wpa-psk 0123" ++ NL ++
  "    wireless-channel auto" ++ NL.
Proof. vm_compute. reflexivity. Qed.

Example parse_home : extract_schemes (Scheme_str home) = ([home], None).
Proof. vm_compute. reflexivity. Qed.

Example repr_home :
  Scheme_repr home =
  "Scheme(interface='wlan0', name='home', options={'wpa-ssid': 'Cafe', 'wpa-psk': '0123', 'wireless-channel': 'auto'}".
Proof. vm_compute. reflexivity. Qed.

Example as_args_home :
  Scheme_as_args home =
  ["wlan0=wlan0-home"; "-o"; "wpa-ssid=Cafe"; "-o"; "wpa-psk=0123";
   "-o"; "wireless-channel=auto"].
Proof. vm_compute. reflexivity. Qed.

Example delete_home :
  Scheme_delete home
    ("# wifi" ++ NL ++ Scheme_str home ++ NL ++ "iface wlan0-work inet dhcp" ++ NL)
  = "# wifi" ++ NL ++ NL ++ "iface wlan0-work inet dhcp" ++ NL.
Proof. vm_compute. reflexivity. Qed.

Example parse_option_short : parse_option_line "    wpa-driver" = Raise ValueError.
Proof. vm_compute. reflexivity. Qed.

(** ** Text and lines *)

Lemma append_nil_r (s : string) : s ++ EmptyString = s.
Proof. induction s as [|c s IH]; simpl; [reflexivity | now rewrite IH]. Qed.

Lemma append_assoc (a b c : string) : (a ++ b) ++ c = a ++ (b ++ c).
Proof. induction a as [|x a IH]; simpl; [reflexivity | now rewrite IH]. Qed.

Lemma join_app (xs ys : list string) : join (xs ++ ys) = join xs ++ join ys.
Proof.
  induction xs as [|x xs IH]; simpl; [reflexivity|].
  now rewrite IH, append_assoc.
Qed.

Lemma join_readlines (s : string) : join (readlines s) = s.
Proof.
  induction s as [|c s IH]; simpl; [reflexivity|].
  destruct (Ascii.eqb_spec c LF) as [->|Hc].
  - simpl. now rewrite IH.
  - destruct (readlines s) as [|l ls]; simpl in *; now rewrite <- IH.
Qed.

Lemma readlines_file_lines (s : string) : file_lines (readlines s).
Proof.
  induction s as [|c s IH]; simpl; [constructor|].
  destruct (Ascii.eqb_spec c LF) as [->|Hc].
  - apply file_lines_cons; [|exact IH].
    exact (full_line_intro EmptyString eq_refl).
  - assert (Hneq : Ascii.eqb c LF = false) by now apply Ascii.eqb_neq.
    destruct (readlines s) as [|l ls].
    + apply file_lines_last; [simpl; now rewrite Hneq | discriminate].
    + inversion IH as [| l' Hl Hne | l' ls' Hl Hls]; subst.
      * apply file_lines_last; [simpl; now rewrite Hneq, Hl | discriminate].
      * apply file_lines_cons; [|assumption].
        destruct Hl as [body Hbody].
        apply (full_line_intro (String c body)). simpl. now rewrite Hneq, Hbody.
Qed.

Lemma readlines_full_line (body rest : string) :
  no_newline body = true ->
  readlines ((body ++ NL) ++ rest) = (body ++ NL) :: readlines rest.
Proof.
  induction body as [|c body IH]; simpl; intros H; [reflexivity|].
  apply andb_prop in H as [Hc Hb].
  apply negb_true_iff in Hc. rewrite Hc, (IH Hb). reflexivity.
Qed.

Lemma readlines_last_line (l : string) :
  no_newline l = true -> l <> EmptyString -> readlines l = [l].
Proof.
  induction l as [|c l IH]; simpl; intros H Hne; [congruence|].
  apply andb_prop in H as [Hc Hl].
  apply negb_true_iff in Hc. rewrite Hc.
  destruct l as [|c' l]; [reflexivity|].
  rewrite (IH Hl); [reflexivity | discriminate].
Qed.

Lemma readlines_join (ls : list string) :
  file_lines ls -> readlines (join ls) = ls.
Proof.
  induction 1 as [| l Hl Hne | l ls Hl Hls IH]; simpl.
  - reflexivity.
  - rewrite append_nil_r. now apply readlines_last_line.
  - destruct Hl as [body Hbody]. now rewrite readlines_full_line, IH.
Qed.

Lemma file_lines_tail (l : string) (ls : list string) :
  file_lines (l :: ls) -> file_lines ls.
Proof. inversion 1; subst; [constructor | assumption]. Qed.

Lemma file_lines_app_r (xs ys : list string) :
  file_lines (xs ++ ys) -> file_lines ys.
Proof.
  induction xs as [|x xs IH]; simpl; intros H; [exact H|].
  apply IH. exact (file_lines_tail _ _ H).
Qed.

(** ** The loop of [delete] *)

Lemma delete_loop (iface : string) (lines : list string) :
  forall (skip : bool) (content : string),
    snd (fold_left (delete_step iface) lines (skip, content))
    = content ++ join (kept_lines iface skip lines).
Proof.
  induction lines as [|line rest IH]; intros skip content; simpl.
  - now rewrite append_nil_r.
  - destruct (is_empty (strip line)); simpl.
    + rewrite IH. apply append_assoc.
    + destruct (String.eqb (strip line) iface); simpl.
      * apply IH.
      * destruct skip; simpl; rewrite IH; [reflexivity | apply append_assoc].
Qed.

Lemma delete_kept (self : Scheme) (file : string) :
  Scheme_delete self file
  = join (kept_lines (header_of self) false (readlines file)).
Proof. unfold Scheme_delete. now rewrite delete_loop. Qed.

Lemma kept_file_lines (iface : string) (lines : list string) :
  file_lines lines -> forall skip, file_lines (kept_lines iface skip lines).
Proof.
  induction 1 as [| l Hl Hne | l ls Hl Hls IH]; intros skip; simpl.
  - constructor.
  - destruct (negb _); [now apply file_lines_last | constructor].
  - destruct (negb _); [apply file_lines_cons; [assumption|] |]; apply IH.
Qed.

Lemma kept_again (iface : string) (lines : list string) :
  forall skip,
    kept_lines iface false (kept_lines iface skip lines)
    = kept_lines iface skip lines.
Proof.
  induction lines as [|line rest IH]; intros skip; simpl; [reflexivity|].
  destruct (is_empty (strip line)) eqn:Hb; simpl.
  - rewrite Hb. simpl. now rewrite IH.
  - destruct (String.eqb (strip line) iface) eqn:Hh; simpl.
    + apply IH.
    + destruct skip; simpl; [apply IH|].
      rewrite Hb, Hh. simpl. now rewrite IH.
Qed.

Lemma kept_no_header (iface : string) (lines : list string) :
  Forall (fun l => is_header iface l = false) lines ->
  forall rest,
    kept_lines iface false (lines ++ rest)
    = (lines ++ kept_lines iface false rest)%list.
Proof.
  induction 1 as [|line lines Hl Hls IH]; intros rest; simpl; [reflexivity|].
  unfold is_header, is_blank in Hl.
  destruct (is_empty (strip line)); simpl in *.
  - now rewrite IH.
  - rewrite Hl. simpl. now rewrite IH.
Qed.

Lemma kept_skipping (iface : string) (body : list string) :
  Forall (fun l => is_blank l = false) body ->
  forall rest,
    kept_lines iface true (body ++ rest) = kept_lines iface true rest.
Proof.
  induction 1 as [|line body Hl Hb IH]; intros rest; simpl; [reflexivity|].
  unfold is_blank in Hl. rewrite Hl.
  destruct (String.eqb (strip line) iface); simpl; apply IH.
Qed.

Lemma kept_after_blank (iface : string) (rest : list string) :
  match rest with [] => True | l :: _ => is_blank l = true end ->
  kept_lines iface true rest = kept_lines iface false rest.
Proof.
  destruct rest as [|l rest]; simpl; [reflexivity|].
  unfold is_blank. now intros ->.
Qed.

(** C10 (delete is idempotent): for every file content and every Scheme,
    deleting the scheme a second time leaves the file as the first
    deletion left it. *)
Theorem delete_idempotent (self : Scheme) (file : string) :
  Scheme_delete self (Scheme_delete self file) = Scheme_delete self file.
Proof.
  rewrite (delete_kept self file).
  rewrite delete_kept.
  rewrite readlines_join
    by (apply kept_file_lines, readlines_file_lines).
  now rewrite kept_again.
Qed.

(** C2, as the code has it: [delete] drops each stanza whose header line,
    once stripped of surrounding whitespace, is the header of the scheme:
    the header line and the lines after it up to, but not including, the
    next blank (whitespace-only) line or the end of the file.  The lines
    before the first such header stay as they are, the blank line that
    ends the stanza stays, and the rest of the file is treated the same
    way.  When no line, once stripped, is the header, the file stays as
    it is. *)
Theorem delete_removes_stanza (self : Scheme) (file : string) :
  (Forall (fun l => is_header (header_of self) l = false) (readlines file) ->
   Scheme_delete self file = file)
  /\
  (forall (before : list string) (header : string) (body after : list string),
     readlines file = (before ++ header :: body ++ after)%list ->
     Forall (fun l => is_header (header_of self) l = false) before ->
     is_header (header_of self) header = true ->
     Forall (fun l => is_blank l = false) body ->
     match after with [] => True | l :: _ => is_blank l = true end ->
     Scheme_delete self file = join before ++ Scheme_delete self (join after)).
Proof.
  split.
  - intros H. rewrite delete_kept.
    rewrite <- (app_nil_r (readlines file)).
    rewrite (kept_no_header _ _ H). simpl.
    rewrite app_nil_r. apply join_readlines.
  - intros before header body after Hlines Hbefore Hheader Hbody Hafter.
    rewrite !delete_kept, Hlines.
    rewrite (kept_no_header _ _ Hbefore), join_app. f_equal.
    assert (Hwf : file_lines after).
    { pose proof (readlines_file_lines file) as Hf. rewrite Hlines in Hf.
      apply file_lines_app_r in Hf. apply file_lines_tail in Hf.
      now apply file_lines_app_r in Hf. }
    rewrite (readlines_join _ Hwf).
    unfold is_header, is_blank in Hheader.
    apply andb_prop in Hheader as [Hnb Heq].
    apply negb_true_iff in Hnb.
    cbn [kept_lines]. rewrite Hnb, Heq. cbn [negb].
    rewrite (kept_skipping _ _ Hbody).
    now rewrite (kept_after_blank _ _ Hafter).
Qed.

(** ** The loop of the parser *)

Lemma extract_lines_skip_comment (line : string) (lines : list string) :
  startswith "#" line || is_empty line = true ->
  extract_lines (line :: lines) = extract_lines lines.
Proof. intros H. cbn [extract_lines]. now rewrite H. Qed.

Lemma extract_lines_skip_unnamed (line : string) (lines : list string) :
  names_scheme line = false ->
  extract_lines (line :: lines) = extract_lines lines.
Proof.
  unfold names_scheme. intros H. cbn [extract_lines].
  destruct (startswith "#" line || is_empty line); [reflexivity|].
  destruct (scheme_re_match line) as [[i [n|]]|]; [discriminate | |]; reflexivity.
Qed.

Lemma extract_lines_stanza (line interface' name' : string) (lines : list string) :
  startswith "#" line = false ->
  scheme_re_match line = Some (interface', Some name') ->
  extract_lines (line :: lines)
  = match read_option_lines lines [] with
    | Ok (options', rest) =>
        yield (Build_Scheme interface' name' options') (extract_lines rest)
    | Raise e => raised e
    end.
Proof.
  intros Hc Hm.
  assert (He : is_empty line = false).
  { destruct line; [discriminate Hm | reflexivity]. }
  cbn [extract_lines]. rewrite Hc, He, Hm. cbn [orb].
  generalize (@nil (string * string)).
  induction lines as [|l lines IH]; intros d; [reflexivity|].
  cbn [read_option_lines].
  destruct (startswith " " l); [|reflexivity].
  destruct (parse_option_line l) as [[k v]|e]; [apply IH | reflexivity].
Qed.

Lemma space_is_not_i (c : ascii) : is_space c = true -> Ascii.eqb "i" c = false.
Proof.
  intros H. destruct (Ascii.eqb_spec "i"%char c) as [<-|]; [discriminate H | reflexivity].
Qed.

Lemma indented_names_nothing (line : string) :
  is_indented line = true -> names_scheme line = false.
Proof.
  destruct line as [|c line]; [discriminate|].
  unfold is_indented. cbn [head_is_space]. intros H.
  unfold names_scheme, scheme_re_match. cbn [strip_prefix].
  now rewrite (space_is_not_i c H).
Qed.

Lemma all_space_passed (line : string) :
  all_space line = true -> is_empty line = true \/ is_indented line = true.
Proof.
  destruct line as [|c line]; [now left|]. simpl. intros H.
  apply andb_prop in H as [H _]. now right.
Qed.

Lemma extract_lines_passed_over (line : string) (lines : list string) :
  passed_over line = true ->
  extract_lines (line :: lines) = extract_lines lines.
Proof.
  unfold passed_over, is_comment. intros H.
  repeat (apply orb_prop in H as [H|H]).
  - apply extract_lines_skip_comment. now rewrite H.
  - destruct (all_space_passed _ H) as [He|Hi].
    + apply extract_lines_skip_comment. rewrite He. apply orb_true_r.
    + apply extract_lines_skip_unnamed. now apply indented_names_nothing.
  - apply extract_lines_skip_unnamed. now apply indented_names_nothing.
  - apply extract_lines_skip_unnamed. now apply negb_true_iff.
Qed.

(** C7 (parser tolerance): for every file content whose lines are comment
    lines, blank lines, indented lines or headers that the pattern does
    not match with a hyphen-suffixed name (such as [iface eth0 inet dhcp]),
    the parser yields no Scheme and raises no error. *)
Theorem parser_passes_over_foreign_lines (interfaces : string) :
  forallb passed_over (splitlines interfaces) = true ->
  extract_schemes interfaces = ([], None).
Proof.
  unfold extract_schemes.
  induction (splitlines interfaces) as [|line lines IH]; [reflexivity|].
  cbn [forallb]. intros H. apply andb_prop in H as [Hl Hls].
  rewrite (extract_lines_passed_over _ _ Hl). exact (IH Hls).
Qed.

Lemma parser_passes_over_foreign_lines_witness :
  forallb passed_over (splitlines foreign_file) = true
  /\ extract_schemes foreign_file = ([], None).
Proof.
  assert (H : forallb passed_over (splitlines foreign_file) = true)
    by (vm_compute; reflexivity).
  split; [exact H | exact (parser_passes_over_foreign_lines foreign_file H)].
Defined.

(** ** Mappings *)

Lemma mem_In (k : string) (ks : list string) : mem k ks = true <-> In k ks.
Proof.
  unfold mem. rewrite existsb_exists. split.
  - intros [x [Hx Heq]]. apply String.eqb_eq in Heq. now subst.
  - intros H. exists k. split; [exact H | apply String.eqb_refl].
Qed.

Lemma mem_false (k : string) (ks : list string) : mem k ks = false <-> ~ In k ks.
Proof.
  rewrite <- mem_In. destruct (mem k ks); split; congruence.
Qed.

Lemma keys_dict_set (k v : string) (d : dict string) :
  keys (dict_set k v d) = if mem k (keys d) then keys d else (keys d ++ [k])%list.
Proof.
  unfold keys, mem.
  induction d as [|[k' v'] d IH]; [reflexivity|].
  cbn [dict_set map fst existsb].
  rewrite (String.eqb_sym k k').
  destruct (String.eqb k' k); cbn [orb map fst]; [reflexivity|].
  rewrite IH.
  now destruct (existsb (String.eqb k) (map fst d)).
Qed.

Lemma dict_get_set_same (k v : string) (d : dict string) :
  dict_get k (dict_set k v d) = Some v.
Proof.
  induction d as [|[k' v'] d IH]; cbn [dict_set dict_get].
  - now rewrite String.eqb_refl.
  - destruct (String.eqb k' k) eqn:E; cbn [dict_get]; now rewrite E.
Qed.

Lemma dict_get_set_other (k k0 v : string) (d : dict string) :
  k0 <> k -> dict_get k (dict_set k0 v d) = dict_get k d.
Proof.
  intros Hne. induction d as [|[k' v'] d IH]; cbn [dict_set dict_get].
  - apply String.eqb_neq in Hne. now rewrite Hne.
  - destruct (String.eqb k' k0) eqn:E; cbn [dict_get].
    + apply String.eqb_eq in E. subst k'.
      apply String.eqb_neq in Hne. now rewrite Hne.
    + now rewrite IH.
Qed.

Lemma dict_set_fresh (k v : string) (d : dict string) :
  ~ In k (keys d) -> dict_set k v d = (d ++ [(k, v)])%list.
Proof.
  induction d as [|[k' v'] d IH]; intros H; [reflexivity|].
  cbn [dict_set]. cbn [keys map fst] in H.
  destruct (String.eqb_spec k' k) as [->|Hne].
  - exfalso. apply H. now left.
  - cbn [app]. rewrite IH; [reflexivity|]. intros Hin. apply H. now right.
Qed.

Lemma first_occurrences_from_ext (ks : list string) :
  forall seen seen',
    (forall x, mem x seen = mem x seen') ->
    first_occurrences_from seen ks = first_occurrences_from seen' ks.
Proof.
  induction ks as [|k ks IH]; intros seen seen' H; [reflexivity|].
  cbn [first_occurrences_from]. rewrite <- (H k).
  destruct (mem k seen); [now apply IH|].
  f_equal. apply IH. intros x. cbn [mem existsb].
  fold (mem x seen) (mem x seen'). now rewrite H.
Qed.

Lemma mem_app_one (x k : string) (ks : list string) :
  mem x (ks ++ [k]) = mem x (k :: ks).
Proof.
  unfold mem. rewrite existsb_app. cbn [existsb].
  rewrite orb_false_r. apply orb_comm.
Qed.

Lemma keys_set_all (pairs : list (string * string)) :
  forall d,
    keys (set_all pairs d)
    = (keys d ++ first_occurrences_from (keys d) (map fst pairs))%list.
Proof.
  induction pairs as [|[k v] pairs IH]; intros d.
  - cbn. now rewrite app_nil_r.
  - change (set_all ((k, v) :: pairs) d) with (set_all pairs (dict_set k v d)).
    cbn [map fst first_occurrences_from].
    rewrite IH, keys_dict_set.
    destruct (mem k (keys d)); [reflexivity|].
    rewrite <- app_assoc. cbn [app]. do 2 f_equal.
    apply first_occurrences_from_ext. intros x. apply mem_app_one.
Qed.

Lemma NoDup_keys_dict_set (k v : string) (d : dict string) :
  NoDup (keys d) -> NoDup (keys (dict_set k v d)).
Proof.
  intros H. rewrite keys_dict_set.
  destruct (mem k (keys d)) eqn:E; [exact H|].
  apply mem_false in E.
  apply NoDup_app; [exact H | repeat constructor; intros [] | ].
  intros x Hx [<-|[]]. contradiction.
Qed.

Lemma NoDup_keys_set_all (pairs : list (string * string)) :
  forall d, NoDup (keys d) -> NoDup (keys (set_all pairs d)).
Proof.
  induction pairs as [|[k v] pairs IH]; intros d H; [exact H|].
  change (set_all ((k, v) :: pairs) d) with (set_all pairs (dict_set k v d)).
  apply IH. now apply NoDup_keys_dict_set.
Qed.

Lemma dict_get_set_all (k : string) (pairs : list (string * string)) :
  forall d,
    dict_get k (set_all pairs d)
    = match last_value k pairs with
      | Some v => Some v
      | None => dict_get k d
      end.
Proof.
  induction pairs as [|[k' v'] pairs IH]; intros d; [reflexivity|].
  change (set_all ((k', v') :: pairs) d) with (set_all pairs (dict_set k' v' d)).
  cbn [last_value]. rewrite IH.
  destruct (last_value k pairs); [reflexivity|].
  destruct (String.eqb_spec k' k) as [->|Hne].
  - apply dict_get_set_same.
  - now apply dict_get_set_other.
Qed.

Lemma last_value_In (k : string) (pairs : list (string * string)) :
  In k (map fst pairs) -> exists v, last_value k pairs = Some v.
Proof.
  induction pairs as [|[k' v'] pairs IH]; [intros []|].
  cbn [map fst last_value]. intros [->|H].
  - destruct (last_value k pairs); [eauto|]. rewrite String.eqb_refl. eauto.
  - destruct (IH H) as [v ->]. eauto.
Qed.

Lemma dict_get_In (k v : string) (d : dict string) :
  dict_get k d = Some v -> In k (keys d).
Proof.
  induction d as [|[k' v'] d IH]; [discriminate|].
  cbn [dict_get keys map fst].
  destruct (String.eqb_spec k' k) as [->|Hne]; [now left|].
  intros H. right. now apply IH.
Qed.

Lemma read_option_lines_all (option_lines : list string) :
  forall (pairs : list (string * string)) (rest : list string) (d : dict string),
    forallb (startswith " ") option_lines = true ->
    map parse_option_line option_lines = map Ok pairs ->
    match rest with [] => True | l :: _ => startswith " " l = false end ->
    read_option_lines (option_lines ++ rest) d = Ok (set_all pairs d, rest).
Proof.
  induction option_lines as [|l ls IH]; intros pairs rest d Hsp Hparse Hrest.
  - destruct pairs; [|discriminate Hparse]. cbn [app set_all fold_left].
    destruct rest as [|r rest]; [reflexivity|].
    cbn [read_option_lines]. now rewrite Hrest.
  - destruct pairs as [|[k v] pairs]; [discriminate Hparse|].
    cbn [map] in Hparse. injection Hparse as Hl Hls.
    cbn [forallb] in Hsp. apply andb_prop in Hsp as [Hl1 Hsp].
    cbn [app read_option_lines]. rewrite Hl1, Hl.
    change (set_all ((k, v) :: pairs) d) with (set_all pairs (dict_set k v d)).
    now apply IH.
Qed.

(** C9 (repeated option keys): when a stanza's option lines assign the
    same key more than once, the parser yields a Scheme whose options
    hold that key exactly once, bound to the value of its last
    occurrence, at the position of its first occurrence: the keys of the
    mapping are the keys of the option lines in the order of their first
    occurrences. *)
Theorem repeated_option_key_keeps_position_takes_last_value
  (interfaces header interface' name' : string)
  (option_lines : list string) (pairs : list (string * string))
  (rest : list string) :
  splitlines interfaces = header :: (option_lines ++ rest)%list ->
  startswith "#" header = false ->
  scheme_re_match header = Some (interface', Some name') ->
  forallb (startswith " ") option_lines = true ->
  map parse_option_line option_lines = map Ok pairs ->
  match rest with [] => True | l :: _ => startswith " " l = false end ->
  exists options' : dict string,
    extract_schemes interfaces
    = yield (Build_Scheme interface' name' options') (extract_lines rest)
    /\ keys options' = first_occurrences (map fst pairs)
    /\ forall k, In k (map fst pairs) ->
         count_occ string_dec (keys options') k = 1
         /\ exists v, last_value k pairs = Some v /\ dict_get k options' = Some v.
Proof.
  intros Hlines Hc Hm Hsp Hparse Hrest.
  exists (set_all pairs []).
  assert (Hkeys : keys (set_all pairs []) = first_occurrences (map fst pairs))
    by apply keys_set_all.
  split; [|split].
  - unfold extract_schemes. rewrite Hlines.
    rewrite (extract_lines_stanza _ _ _ _ Hc Hm).
    now rewrite (read_option_lines_all _ _ _ _ Hsp Hparse Hrest).
  - exact Hkeys.
  - intros k Hk.
    destruct (last_value_In _ _ Hk) as [v Hv].
    assert (Hget : dict_get k (set_all pairs []) = Some v)
      by now rewrite dict_get_set_all, Hv.
    split; [|now exists v].
    apply NoDup_count_occ'.
    + apply NoDup_keys_set_all. constructor.
    + exact (dict_get_In _ _ _ Hget).
Qed.

(** ** Serialized stanzas, line by line *)

Lemma all_chars_app (f : ascii -> bool) (a b : string) :
  all_chars f (a ++ b) = all_chars f a && all_chars f b.
Proof.
  induction a as [|c a IH]; [reflexivity|].
  cbn [append all_chars]. now rewrite IH, andb_assoc.
Qed.

Lemma splitlines_line (a rest : string) :
  no_linebreak a = true ->
  splitlines (a ++ String LF rest) = a :: splitlines rest.
Proof.
  unfold no_linebreak.
  induction a as [|c a IH]; intros H.
  - destruct rest; reflexivity.
  - cbn [all_chars] in H. apply andb_prop in H as [Hc Ha].
    apply negb_true_iff in Hc.
    cbn [append splitlines]. now rewrite Hc, (IH Ha).
Qed.

Lemma splitlines_stanza (opts : dict string) :
  forall a : string,
    no_linebreak a = true ->
    forallb (fun kv => no_linebreak (option_line kv)) opts = true ->
    splitlines (a ++ join (map (fun kv => NL ++ option_line kv) opts) ++ NL)
    = a :: map option_line opts.
Proof.
  induction opts as [|kv opts IH]; intros a Ha Hopts.
  - cbn [map join]. exact (splitlines_line a EmptyString Ha).
  - cbn [forallb] in Hopts. apply andb_prop in Hopts as [Hkv Hopts].
    cbn [map join].
    change ((NL ++ option_line kv) ++ ?x) with (String LF (option_line kv ++ x)).
    change (String LF ?x ++ NL) with (String LF (x ++ NL)).
    rewrite (splitlines_line a _ Ha), append_assoc.
    now rewrite (IH _ Hkv Hopts).
Qed.

(** ** The header of a serialized stanza *)

Lemma word_is_no_linebreak (c : ascii) :
  is_word c = true -> is_linebreak c = false.
Proof.
  destruct c as [[] [] [] [] [] [] [] []]; vm_compute; congruence.
Qed.

Lemma word_is_no_space (c : ascii) : is_word c = true -> is_space c = false.
Proof.
  destruct c as [[] [] [] [] [] [] [] []]; vm_compute; congruence.
Qed.

Lemma digit_is_word (c : ascii) : is_digit c = true -> is_word c = true.
Proof.
  destruct c as [[] [] [] [] [] [] [] []]; vm_compute; congruence.
Qed.

Lemma words_no_linebreak (s : string) :
  all_chars is_word s = true -> no_linebreak s = true.
Proof.
  unfold no_linebreak. induction s as [|c s IH]; [reflexivity|].
  cbn [all_chars]. intros H. apply andb_prop in H as [Hc Hs].
  now rewrite (word_is_no_linebreak c Hc), (IH Hs).
Qed.

Lemma interface_name_cases (i : string) :
  is_interface_name i = true ->
  i = "wlan" \/ exists d, is_digit d = true /\ i = "wlan" ++ String d EmptyString.
Proof.
  unfold is_interface_name.
  destruct i as [|c1 i]; [discriminate|]. cbn [strip_prefix].
  destruct (Ascii.eqb_spec "w" c1) as [<-|]; [|discriminate].
  destruct i as [|c2 i]; [discriminate|]. cbn [strip_prefix].
  destruct (Ascii.eqb_spec "l" c2) as [<-|]; [|discriminate].
  destruct i as [|c3 i]; [discriminate|]. cbn [strip_prefix].
  destruct (Ascii.eqb_spec "a" c3) as [<-|]; [|discriminate].
  destruct i as [|c4 i]; [discriminate|]. cbn [strip_prefix].
  destruct (Ascii.eqb_spec "n" c4) as [<-|]; [|discriminate].
  destruct i as [|d [|c i]]; intros H; [now left | | discriminate].
  right. exists d. now split.
Qed.

Lemma span_word_name (n t : string) :
  all_chars is_word n = true ->
  head_is_space t = true ->
  span is_word (n ++ t) = (n, t).
Proof.
  intros Hn Ht. induction n as [|c n IH].
  - destruct t as [|c t]; [discriminate|]. cbn [append span].
    cbn [head_is_space] in Ht.
    destruct (is_word c) eqn:E; [|reflexivity].
    apply word_is_no_space in E. congruence.
  - cbn [all_chars] in Hn. apply andb_prop in Hn as [Hc Hn].
    cbn [append span]. now rewrite Hc, (IH Hn).
Qed.

Lemma scheme_re_match_after_wlan (u : string) :
  scheme_re_match ("iface wlan" ++ u)
  = let (interface', after_interface) :=
      match u with
      | String d rest =>
          if is_digit d then ("wlan" ++ String d EmptyString, rest)
          else ("wlan", u)
      | EmptyString => ("wlan", u)
      end in
    match after_interface with
    | String "-" rest =>
        let (w, _) := span is_word rest in
        if is_empty w then Some (interface', None)
        else Some (interface', Some w)
    | _ => Some (interface', None)
    end.
Proof. reflexivity. Qed.

Lemma scheme_re_match_wlan (t : string) :
  scheme_re_match ("iface wlan" ++ String "-" t)
  = let (w, _) := span is_word t in
    if is_empty w then Some ("wlan", None) else Some ("wlan", Some w).
Proof. reflexivity. Qed.

Lemma scheme_re_match_wlan_digit (d : ascii) (t : string) :
  is_digit d = true ->
  scheme_re_match ("iface wlan" ++ String d (String "-" t))
  = let (w, _) := span is_word t in
    if is_empty w then Some ("wlan" ++ String d EmptyString, None)
    else Some ("wlan" ++ String d EmptyString, Some w).
Proof.
  intros H. rewrite scheme_re_match_after_wlan. now rewrite H.
Qed.

Lemma scheme_re_match_header (i n : string) :
  is_interface_name i = true ->
  is_scheme_name n = true ->
  scheme_re_match ("iface " ++ i ++ "-" ++ n ++ " inet dhcp") = Some (i, Some n).
Proof.
  unfold is_scheme_name. intros Hi Hn.
  apply andb_prop in Hn as [Hne Hn]. apply negb_true_iff in Hne.
  assert (Hspan : span is_word (n ++ " inet dhcp") = (n, " inet dhcp"))
    by now apply span_word_name.
  destruct (interface_name_cases i Hi) as [->|[d [Hd ->]]].
  - change ("iface " ++ "wlan" ++ "-" ++ n ++ " inet dhcp")
      with ("iface wlan" ++ String "-" (n ++ " inet dhcp")).
    rewrite scheme_re_match_wlan, Hspan. now rewrite Hne.
  - change ("iface " ++ ("wlan" ++ String d EmptyString) ++ "-" ++ n ++ " inet dhcp")
      with ("iface wlan" ++ String d (String "-" (n ++ " inet dhcp"))).
    rewrite (scheme_re_match_wlan_digit d _ Hd), Hspan. now rewrite Hne.
Qed.

Lemma header_no_linebreak (i n : string) :
  is_interface_name i = true ->
  is_scheme_name n = true ->
  no_linebreak ("iface " ++ i ++ "-" ++ n ++ " inet dhcp") = true.
Proof.
  unfold is_scheme_name. intros Hi Hn.
  apply andb_prop in Hn as [_ Hn]. apply words_no_linebreak in Hn.
  unfold no_linebreak in *.
  assert (Hi' : all_chars (fun c => negb (is_linebreak c)) i = true).
  { destruct (interface_name_cases i Hi) as [->|[d [Hd ->]]]; [reflexivity|].
    cbn [append all_chars].
    rewrite (word_is_no_linebreak d (digit_is_word d Hd)). reflexivity. }
  rewrite !all_chars_app, Hi', Hn. reflexivity.
Qed.

(** ** Option lines read back *)

Lemma ends_nonspace_not_empty (s : string) :
  ends_nonspace s = true -> is_empty s = false.
Proof. destruct s; [discriminate | reflexivity]. Qed.

Lemma is_empty_app_r (a b : string) : is_empty b = false -> is_empty (a ++ b) = false.
Proof. destruct a; [trivial | reflexivity]. Qed.

Lemma ends_nonspace_app (a b : string) :
  ends_nonspace b = true -> ends_nonspace (a ++ b) = true.
Proof.
  intros Hb. induction a as [|c a IH]; [exact Hb|].
  cbn [append ends_nonspace].
  pose proof (is_empty_app_r a b (ends_nonspace_not_empty b Hb)) as Hne.
  destruct (a ++ b); [discriminate Hne | exact IH].
Qed.

Lemma rstrip_ends_nonspace (s : string) : ends_nonspace s = true -> rstrip s = s.
Proof.
  induction s as [|c s IH]; [reflexivity|].
  cbn [ends_nonspace rstrip]. destruct s as [|c' s].
  - intros H. apply negb_true_iff in H. cbn [rstrip]. now rewrite H.
  - intros H. rewrite (IH H). cbn [is_empty]. now rewrite andb_false_r.
Qed.

Lemma lstrip_starts_nonspace (s : string) : starts_nonspace s = true -> lstrip s = s.
Proof.
  destruct s as [|c s]; [reflexivity|]. cbn [starts_nonspace lstrip].
  intros H. apply negb_true_iff in H. now rewrite H.
Qed.

Lemma starts_nonspace_app (a b : string) :
  starts_nonspace a = true -> starts_nonspace (a ++ b) = true.
Proof. destruct a; [discriminate | trivial]. Qed.

Lemma head_is_space_app (a b : string) :
  is_empty a = false -> head_is_space (a ++ b) = head_is_space a.
Proof. destruct a; [discriminate | reflexivity]. Qed.

Lemma no_ws_run_app (a b : string) :
  no_ws_run a = true -> ends_nonspace a = true -> no_ws_run b = true ->
  no_ws_run (a ++ b) = true.
Proof.
  intros Ha He Hb. induction a as [|c a IH]; [exact Hb|].
  cbn [no_ws_run ends_nonspace append] in *.
  apply andb_prop in Ha as [Hc Ha].
  destruct a as [|c' a].
  - apply negb_true_iff in He. cbn [append]. now rewrite He, Hb.
  - rewrite (IH Ha He), andb_true_r.
    now rewrite head_is_space_app.
Qed.

Lemma sub_ws_runs_none (s : string) : no_ws_run s = true -> re_sub_ws s = s.
Proof.
  unfold re_sub_ws. induction s as [|c s IH]; [reflexivity|].
  cbn [no_ws_run sub_ws_runs]. intros H. apply andb_prop in H as [Hc Hs].
  rewrite (IH Hs). apply negb_true_iff in Hc.
  destruct (is_space c); [|reflexivity].
  cbn [andb] in Hc. now rewrite Hc.
Qed.

Lemma split_space_1_key (k v : string) :
  contains_char " " k = false ->
  split_space_1 (k ++ String " " v) = [k; v].
Proof.
  induction k as [|c k IH]; [reflexivity|].
  cbn [contains_char append split_space_1]. intros H.
  apply orb_false_elim in H as [Hc Hk]. now rewrite Hc, (IH Hk).
Qed.

Lemma clean_parts (s : string) :
  clean s = true ->
  starts_nonspace s = true /\ ends_nonspace s = true
  /\ no_ws_run s = true /\ no_linebreak s = true.
Proof.
  unfold clean. intros H.
  apply andb_prop in H as [H H4]. apply andb_prop in H as [H H3].
  apply andb_prop in H as [H1 H2]. auto.
Qed.

Lemma starts_nonspace_head (s : string) :
  starts_nonspace s = true -> head_is_space s = false.
Proof.
  destruct s; [reflexivity|]. cbn. now intros ->%negb_true_iff.
Qed.

Lemma parse_option_line_written (k v : string) :
  is_option_key k = true -> is_option_value v = true ->
  parse_option_line (option_line (k, v)) = Ok (k, v).
Proof.
  unfold is_option_key, is_option_value. intros Hk Hv.
  apply andb_prop in Hk as [Hk Hsp]. apply negb_true_iff in Hsp.
  destruct (clean_parts k Hk) as (Hk1 & Hk2 & Hk3 & _).
  destruct (clean_parts v Hv) as (Hv1 & Hv2 & Hv3 & _).
  unfold parse_option_line, option_line, strip. cbn [fst snd].
  change (lstrip ("    " ++ k ++ " " ++ v)) with (lstrip (k ++ String " " v)).
  rewrite lstrip_starts_nonspace by now apply starts_nonspace_app.
  rewrite rstrip_ends_nonspace
    by (apply ends_nonspace_app; exact (ends_nonspace_app " " v Hv2)).
  rewrite sub_ws_runs_none.
  - now rewrite split_space_1_key.
  - apply no_ws_run_app; [assumption..|].
    cbn [no_ws_run]. now rewrite (starts_nonspace_head v Hv1), Hv3.
Qed.

Lemma set_all_fresh (pairs : list (string * string)) :
  forall d : dict string,
    NoDup (keys d ++ map fst pairs) -> set_all pairs d = (d ++ pairs)%list.
Proof.
  induction pairs as [|[k v] pairs IH]; intros d H.
  - cbn. now rewrite app_nil_r.
  - change (set_all ((k, v) :: pairs) d) with (set_all pairs (dict_set k v d)).
    cbn [map fst] in H.
    assert (Hk : ~ In k (keys d)).
    { apply NoDup_remove_2 in H. intros Hin. apply H, in_or_app. now left. }
    rewrite (dict_set_fresh k v d Hk), IH.
    + now rewrite <- app_assoc.
    + unfold keys in *. rewrite map_app, <- app_assoc. exact H.
Qed.

Lemma option_line_no_linebreak (kv : string * string) :
  is_option_key (fst kv) = true -> is_option_value (snd kv) = true ->
  no_linebreak (option_line kv) = true.
Proof.
  unfold is_option_key, is_option_value. intros Hk Hv.
  apply andb_prop in Hk as [Hk _].
  destruct (clean_parts _ Hk) as (_ & _ & _ & Hk4).
  destruct (clean_parts _ Hv) as (_ & _ & _ & Hv4).
  unfold no_linebreak, option_line in *.
  now rewrite !all_chars_app, Hk4, Hv4.
Qed.

Lemma plain_options_lines (opts : dict string) :
  plain_options opts = true ->
  forallb (fun kv => no_linebreak (option_line kv)) opts = true
  /\ forallb (startswith " ") (map option_line opts) = true
  /\ map parse_option_line (map option_line opts) = map Ok opts.
Proof.
  unfold plain_options. induction opts as [|[k v] opts IH]; [now repeat split|].
  cbn [forallb map]. intros H. apply andb_prop in H as [Hkv Hopts].
  apply andb_prop in Hkv as [Hk Hv]. cbn [fst snd] in Hk, Hv.
  destruct (IH Hopts) as (H1 & H2 & H3).
  rewrite H1, H2, H3, (parse_option_line_written k v Hk Hv).
  rewrite (option_line_no_linebreak (k, v) Hk Hv). now repeat split.
Qed.

(** C1, as the code has it: for every Scheme whose interface is [wlan]
    or [wlan] and one digit, whose name is a non-empty run of word
    characters, and whose options have pairwise distinct keys, each key
    and value non-empty, free of line boundaries, with no whitespace at
    either end and no two whitespace characters in a row, and no space
    in a key, parsing the serialized text of the Scheme yields exactly
    that Scheme: same interface, same name, same options in the same
    order, and no error. *)
Theorem parse_serialized_scheme (s : Scheme) :
  is_interface_name (interface s) = true ->
  is_scheme_name (name s) = true ->
  NoDup (keys (options s)) ->
  plain_options (options s) = true ->
  extract_schemes (Scheme_str s) = ([s], None).
Proof.
  destruct s as [i n opts]. cbn [interface name options].
  intros Hi Hn Hdup Hplain.
  destruct (plain_options_lines opts Hplain) as (Hlb & Hsp & Hparse).
  unfold extract_schemes, Scheme_str. cbn [interface name options].
  change (fun kv : string * string => NL ++ "    " ++ fst kv ++ " " ++ snd kv)
    with (fun kv : string * string => NL ++ option_line kv).
  rewrite !append_assoc.
  change ("iface " ++ i ++ "-" ++ n ++ " inet dhcp" ++ ?x)
    with ("iface " ++ i ++ "-" ++ n ++ " inet dhcp" ++ x).
  replace ("iface " ++ i ++ "-" ++ n ++ " inet dhcp" ++
           join (map (fun kv => NL ++ option_line kv) opts) ++ NL)
    with (("iface " ++ i ++ "-" ++ n ++ " inet dhcp") ++
          join (map (fun kv => NL ++ option_line kv) opts) ++ NL)
    by now rewrite !append_assoc.
  rewrite (splitlines_stanza opts _ (header_no_linebreak i n Hi Hn) Hlb).
  rewrite (extract_lines_stanza ("iface " ++ i ++ "-" ++ n ++ " inet dhcp") i n _
             eq_refl (scheme_re_match_header i n Hi Hn)).
  rewrite <- (app_nil_r (map option_line opts)).
  rewrite (read_option_lines_all _ opts [] [] Hsp Hparse I).
  rewrite (set_all_fresh opts [] Hdup). reflexivity.
Qed.

Lemma parse_serialized_scheme_witness :
  is_interface_name (interface home) = true
  /\ is_scheme_name (name home) = true
  /\ NoDup (keys (options home))
  /\ plain_options (options home) = true
  /\ extract_schemes (Scheme_str home) = ([home], None).
Proof.
  assert (Hdup : NoDup (keys (options home))).
  { repeat constructor; cbn; intuition discriminate. }
  assert (Hi : is_interface_name (interface home) = true)
    by (vm_compute; reflexivity).
  assert (Hn : is_scheme_name (name home) = true) by (vm_compute; reflexivity).
  assert (Hp : plain_options (options home) = true) by (vm_compute; reflexivity).
  exact (conj Hi (conj Hn (conj Hdup (conj Hp
           (parse_serialized_scheme home Hi Hn Hdup Hp))))).
Defined.

(** C1 as stated fails: the interface and the name of [cafe] match the
    pattern of the parser and its options are a mapping with distinct
    keys, yet the parser gives back another value for [wireless-essid],
    the two spaces having become one. *)
Lemma parse_serialized_scheme_counterexample :
  is_interface_name (interface cafe) = true
  /\ is_scheme_name (name cafe) = true
  /\ NoDup (keys (options cafe))
  /\ extract_schemes (Scheme_str cafe)
     = ([ {| interface := "wlan0"; name := "cafe";
             options := [("wireless-essid", "My Cafe");
                         ("wireless-channel", "auto")] |} ], None)
  /\ extract_schemes (Scheme_str cafe) <> ([cafe], None).
Proof.
  repeat split; try (vm_compute; reflexivity).
  - repeat constructor; cbn; intuition discriminate.
  - vm_compute. discriminate.
Qed.

Example parse_serialized_empty_value :
  extract_schemes
    (Scheme_str {| interface := "wlan0"; name := "open";
                   options := [("wireless-key", EmptyString)] |})
  = ([], Some ValueError).
Proof. vm_compute. reflexivity. Qed.

(** ** The store *)

Lemma delete_removes_stanza_witness :
  Scheme_delete home two_stanzas
  = join ["# wifi" ++ NL]
    ++ Scheme_delete home
         (join [NL; work_header ++ NL; "    wireless-essid Office" ++ NL]).
Proof.
  refine (proj2 (delete_removes_stanza home two_stanzas)
            ["# wifi" ++ NL]
            ("iface wlan0-home inet dhcp" ++ NL)
            ["    wpa-ssid Cafe" ++ NL; "    wpa-psk 0123" ++ NL;
             "    wireless-channel auto" ++ NL]
            [NL; work_header ++ NL; "    wireless-essid Office" ++ NL]
            _ _ _ _ _).
  - vm_compute; reflexivity.
  - repeat (constructor; [vm_compute; reflexivity|]). constructor.
  - vm_compute; reflexivity.
  - repeat (constructor; [vm_compute; reflexivity|]). constructor.
  - vm_compute; reflexivity.
Defined.

(** C2 as stated fails.  No line of [header_with_trailing_space] is the
    header of [home] (its first line has one more space), yet [delete]
    empties the file; and the blank line that ends a deleted stanza is
    kept, not removed. *)
Lemma delete_removes_stanza_counterexample :
  forallb (fun l => negb (String.eqb l (header_of home)))
          (splitlines header_with_trailing_space) = true
  /\ Scheme_delete home header_with_trailing_space = EmptyString
  /\ Scheme_delete home header_with_trailing_space <> header_with_trailing_space
  /\ Scheme_delete home two_stanzas
     = "# wifi" ++ NL ++ NL ++ work_header ++ NL ++ "    wireless-essid Office" ++ NL.
Proof.
  repeat split; try (vm_compute; reflexivity).
  vm_compute. discriminate.
Qed.

Lemma filter_match_not_empty (fn : Scheme -> bool) (schemes : list Scheme)
      (existing : Scheme) :
  In existing schemes -> fn existing = true -> filter fn schemes <> [].
Proof.
  intros Hin Hfn Hnil.
  assert (H : In existing (filter fn schemes)) by (apply filter_In; now split).
  rewrite Hnil in H. exact H.
Qed.

(** C3 (save of a duplicate): for every Scheme, if the file parses to a
    list of schemes one of which has the interface and the name of the
    Scheme, [save] fails with the assertion error and the file is as it
    was; and whenever [save] fails, with whatever error, the file is as
    it was. *)
Theorem save_duplicate_fails (self : Scheme) (file : string) :
  (forall (schemes : list Scheme) (existing : Scheme),
     extract_schemes file = (schemes, None) ->
     In existing schemes ->
     interface existing = interface self ->
     name existing = name self ->
     Scheme_save self file
     = (Raise (AssertionError "This scheme already exists"), file))
  /\
  (forall (e : exn) (file' : string),
     Scheme_save self file = (Raise e, file') -> file' = file).
Proof.
  split.
  - intros schemes existing Hparse Hin Hi Hn.
    unfold Scheme_save, Scheme_find, Scheme_where, Scheme_all, to_list.
    rewrite Hparse. cbn [fst snd].
    destruct (filter _ schemes) as [|s l] eqn:E; [|reflexivity].
    exfalso. revert E. apply (filter_match_not_empty _ _ existing Hin).
    now rewrite Hi, Hn, !String.eqb_refl.
  - intros e file'. unfold Scheme_save.
    destruct (Scheme_find _ _ file) as [[s|]|e']; intros H;
      now inversion H.
Qed.

Lemma save_duplicate_fails_witness :
  Scheme_save home two_stanzas
  = (Raise (AssertionError "This scheme already exists"), two_stanzas).
Proof.
  refine (proj1 (save_duplicate_fails home two_stanzas)
            [home; {| interface := "wlan0"; name := "work";
                      options := [("wireless-essid", "Office")] |}]
            home _ _ eq_refl eq_refl).
  - vm_compute; reflexivity.
  - now left.
Defined.

Example save_new_scheme :
  Scheme_save cafe two_stanzas = (Ok tt, two_stanzas ++ NL ++ Scheme_str cafe).
Proof. vm_compute. reflexivity. Qed.

Example save_unreadable_file :
  Scheme_save cafe (Scheme_str home ++ "    wpa-driver" ++ NL)
  = (Raise ValueError, Scheme_str home ++ "    wpa-driver" ++ NL).
Proof. vm_compute. reflexivity. Qed.

(** ** The configuration builder *)

Section ConfigurationFacts.

Context (kdf : Type) (PBKDF2 : string -> string -> nat -> kdf)
        (hexread : kdf -> nat -> string).

(** C4 (WPA cells): for every encrypted cell whose encryption type
    starts with [wpa] and every secret, a secret of 64 characters is
    kept as it is and any other is replaced by
    [PBKDF2(secret, ssid, 4096).hexread(32)]; the result is the mapping
    of [wpa-ssid] to the SSID, [wpa-psk] to that key and
    [wireless-channel] to [auto], in this order. *)
Theorem configuration_wpa (cell : Cell) (secret : string) :
  encrypted cell = true ->
  startswith "wpa" (encryption_type cell) = true ->
  configuration kdf PBKDF2 hexread cell (Some secret)
  = Ok [("wpa-ssid", Some (ssid cell));
        ("wpa-psk",
         Some (if String.length secret =? 64 then secret
               else hexread (PBKDF2 secret (ssid cell) 4096) 32));
        ("wireless-channel", Some "auto")].
Proof.
  intros He Hw. unfold configuration. rewrite He, Hw. cbn [negb].
  now destruct (String.length secret =? 64).
Qed.

(** C5 (other encryption types): for every encrypted cell whose
    encryption type neither starts with [wpa] nor is [wep], and every
    secret or none, [configuration] raises [NotImplementedError] and
    returns no mapping. *)
Theorem configuration_unsupported (cell : Cell) (passkey : option string) :
  encrypted cell = true ->
  startswith "wpa" (encryption_type cell) = false ->
  encryption_type cell <> "wep" ->
  configuration kdf PBKDF2 hexread cell passkey = Raise NotImplementedError.
Proof.
  intros He Hw Hwep. unfold configuration. rewrite He, Hw. cbn [negb].
  apply String.eqb_neq in Hwep. now rewrite Hwep.
Qed.

(** C6 (open cells): for every cell that is not encrypted and every
    secret or none, [configuration] returns the mapping of
    [wireless-essid] to the SSID and [wireless-channel] to [auto], these
    two entries and no other. *)
Theorem configuration_open (cell : Cell) (passkey : option string) :
  encrypted cell = false ->
  configuration kdf PBKDF2 hexread cell passkey
  = Ok [("wireless-essid", Some (ssid cell));
        ("wireless-channel", Some "auto")].
Proof. intros He. unfold configuration. now rewrite He. Qed.

End ConfigurationFacts.

Lemma configuration_wpa_witness :
  encrypted wpa_cell = true
  /\ startswith "wpa" (encryption_type wpa_cell) = true
  /\ configuration shown_kdf shown_PBKDF2 shown_hexread wpa_cell (Some "secret")
     = Ok [("wpa-ssid", Some "Cafe");
           ("wpa-psk", Some "PBKDF2(secret,Cafe)");
           ("wireless-channel", Some "auto")].
Proof.
  exact (conj eq_refl (conj eq_refl
           (configuration_wpa shown_kdf shown_PBKDF2 shown_hexread
              wpa_cell "secret" eq_refl eq_refl))).
Defined.

Example configuration_wpa_key_of_64 :
  configuration shown_kdf shown_PBKDF2 shown_hexread wpa_cell
    (Some "0123456789abcdef0123456789abcdef0123456789abcdef0123456789abcdef")
  = Ok [("wpa-ssid", Some "Cafe");
        ("wpa-psk",
         Some "0123456789abcdef0123456789abcdef0123456789abcdef0123456789abcdef");
        ("wireless-channel", Some "auto")].
Proof. vm_compute. reflexivity. Qed.

Example configuration_wpa_no_secret :
  configuration shown_kdf shown_PBKDF2 shown_hexread wpa_cell None
  = Raise TypeError.
Proof. reflexivity. Qed.

Lemma configuration_unsupported_witness :
  encrypted eap_cell = true
  /\ startswith "wpa" (encryption_type eap_cell) = false
  /\ encryption_type eap_cell <> "wep"
  /\ configuration shown_kdf shown_PBKDF2 shown_hexread eap_cell (Some "secret")
     = Raise NotImplementedError.
Proof.
  assert (H : encryption_type eap_cell <> "wep") by discriminate.
  exact (conj eq_refl (conj eq_refl (conj H
           (configuration_unsupported shown_kdf shown_PBKDF2 shown_hexread
              eap_cell (Some "secret") eq_refl eq_refl H)))).
Defined.

Lemma configuration_open_witness :
  encrypted open_cell = false
  /\ configuration shown_kdf shown_PBKDF2 shown_hexread open_cell None
     = Ok [("wireless-essid", Some "Cafe"); ("wireless-channel", Some "auto")].
Proof.
  exact (conj eq_refl
           (configuration_open shown_kdf shown_PBKDF2 shown_hexread
              open_cell None eq_refl)).
Defined.

(** ** Activation *)

Section ActivationFacts.

Context (Output Connection : Type)
        (check_output : list string -> result Output)
        (current_for_scheme : Scheme -> option Connection).

(** C8 (activation): for every Scheme, when the down command and the up
    command succeed, [activate] returns a connection exactly when the
    lookup of the current connection finds it for the scheme, and
    raises [ConnectionError] with the message made of the scheme's
    representation, which shows its interface and name, exactly when
    the lookup finds none; it then raises no other error. *)
Theorem activate_outcome (self : Scheme) (down_output up_output : Output) :
  check_output ["/sbin/ifdown"; interface self] = Ok down_output ->
  check_output ("/sbin/ifup" :: Scheme_as_args self) = Ok up_output ->
  let outcome :=
    snd (Scheme_activate Output Connection check_output current_for_scheme self) in
  let failure :=
    ConnectionError
      ("Failed to connect to Scheme(interface=" ++ repr_str (interface self)
       ++ ", name=" ++ repr_str (name self)
       ++ ", options=" ++ repr_dict (options self)) in
  (forall connection,
     outcome = Ok connection <-> current_for_scheme self = Some connection)
  /\ (outcome = Raise failure <-> current_for_scheme self = None)
  /\ (forall e, outcome = Raise e -> e = failure).
Proof.
  intros Hdown Hup. unfold Scheme_activate.
  rewrite Hdown. cbn [app]. rewrite Hup.
  assert (Hrepr : "Failed to connect to " ++ Scheme_repr self
                  = "Failed to connect to Scheme(interface="
                    ++ repr_str (interface self)
                    ++ ", name=" ++ repr_str (name self)
                    ++ ", options=" ++ repr_dict (options self))
    by reflexivity.
  rewrite Hrepr.
  destruct (current_for_scheme self) as [c|]; cbn [snd]; repeat split;
    intros; try congruence; try discriminate.
Qed.

End ActivationFacts.

Lemma activate_outcome_witness :
  quiet_check_output ["/sbin/ifdown"; interface cafe] = Ok EmptyString
  /\ quiet_check_output ("/sbin/ifup" :: Scheme_as_args cafe) = Ok EmptyString
  /\ home_connection cafe = None
  /\ snd (Scheme_activate string string quiet_check_output home_connection cafe)
     = Raise (ConnectionError
         ("Failed to connect to Scheme(interface=" ++ repr_str (interface cafe)
          ++ ", name=" ++ repr_str (name cafe)
          ++ ", options=" ++ repr_dict (options cafe))).
Proof.
  pose proof (activate_outcome string string quiet_check_output home_connection
                cafe EmptyString EmptyString eq_refl eq_refl) as H.
  cbv zeta in H. destruct H as (_ & [_ Hnone] & _).
  exact (conj eq_refl (conj eq_refl (conj eq_refl (Hnone eq_refl)))).
Defined.

Example activate_home :
  Scheme_activate string string quiet_check_output home_connection home
  = ([], Ok "wlan0").
Proof. vm_compute. reflexivity. Qed.

Example activate_cafe :
  Scheme_activate string string quiet_check_output home_connection cafe
  = ([EmptyString],
     Raise (ConnectionError
       "Failed to connect to Scheme(interface='wlan0', name='cafe', options={'wireless-essid': 'My  Cafe', 'wireless-channel': 'auto'}")).
Proof. vm_compute. reflexivity. Qed.

Example activate_down_fails :
  Scheme_activate string string
    (fun argv => Raise (CalledProcessError 1)) home_connection home
  = ([], Raise (CalledProcessError 1)).
Proof. reflexivity. Qed.

Lemma repeated_option_key_witness :
  exists options' : dict string,
    extract_schemes repeated_key_file
    = yield (Build_Scheme "wlan0" "home" options')
            (extract_lines [EmptyString; "iface eth0 inet dhcp"])
    /\ keys options' = ["wpa-psk"; "wpa-ssid"]
    /\ count_occ string_dec (keys options') "wpa-psk" = 1
    /\ dict_get "wpa-psk" options' = Some "second".
Proof.
  destruct (repeated_option_key_keeps_position_takes_last_value
              repeated_key_file "iface wlan0-home inet dhcp" "wlan0" "home"
              ["    wpa-psk first"; "    wpa-ssid Cafe"; "    wpa-psk second"]
              [("wpa-psk", "first"); ("wpa-ssid", "Cafe"); ("wpa-psk", "second")]
              [EmptyString; "iface eth0 inet dhcp"])
    as (options' & Hparse & Hkeys & Hkey).
  - vm_compute; reflexivity.
  - vm_compute; reflexivity.
  - vm_compute; reflexivity.
  - vm_compute; reflexivity.
  - vm_compute; reflexivity.
  - vm_compute; reflexivity.
  - exists options'.
    destruct (Hkey "wpa-psk" (or_introl eq_refl)) as (Hcount & v & Hlast & Hget).
    repeat split; [exact Hparse | exact Hkeys | exact Hcount |].
    rewrite Hget, <- Hlast. reflexivity.
Defined.

Example parse_repeated_key :
  extract_schemes repeated_key_file
  = ([ {| interface := "wlan0"; name := "home";
          options := [("wpa-psk", "second"); ("wpa-ssid", "Cafe")] |} ], None).
Proof. vm_compute. reflexivity. Qed.

(** ** More on the configuration builder *)

Section ConfigurationErrors.

Context (kdf : Type) (PBKDF2 : string -> string -> nat -> kdf)
        (hexread : kdf -> nat -> string).

(** X1: [configuration] raises in two cases only: [TypeError] for an
    encrypted cell whose type starts with [wpa] when no secret is given,
    and [NotImplementedError] for an encrypted cell whose type neither
    starts with [wpa] nor is [wep]. *)
Theorem configuration_raises_iff (cell : Cell) (passkey : option string) (e : exn) :
  configuration kdf PBKDF2 hexread cell passkey = Raise e
  <->
  encrypted cell = true
  /\ ((startswith "wpa" (encryption_type cell) = true
       /\ passkey = None /\ e = TypeError)
      \/ (startswith "wpa" (encryption_type cell) = false
          /\ encryption_type cell <> "wep" /\ e = NotImplementedError)).
Proof.
  unfold configuration.
  destruct (encrypted cell); cbn [negb].
  2: { split; [discriminate | intros [H _]; discriminate H]. }
  destruct (startswith "wpa" (encryption_type cell)).
  - destruct passkey as [secret|].
    + split; [discriminate|].
      intros [_ [(_ & H & _)|(H & _)]]; discriminate H.
    + split.
      * intros [= <-]. split; [reflexivity|]. left. now repeat split.
      * intros [_ [(_ & _ & ->)|(H & _)]]; [reflexivity | discriminate H].
  - destruct (String.eqb_spec (encryption_type cell) "wep") as [Hw|Hw].
    + split; [discriminate|].
      intros [_ [(H & _)|(_ & H & _)]]; [discriminate H | contradiction].
    + split.
      * intros [= <-]. split; [reflexivity|]. right. now repeat split.
      * intros [_ [(H & _)|(_ & _ & ->)]]; [discriminate H | reflexivity].
Qed.

(** X2: whenever [configuration] returns a mapping, the SSID read from
    it the way [Scheme.ssid] reads it ([wpa-ssid], else
    [wireless-essid]) is the SSID of the cell. *)
Theorem configuration_keeps_ssid (cell : Cell) (passkey : option string)
        (options' : dict (option string)) :
  configuration kdf PBKDF2 hexread cell passkey = Ok options' ->
  ssid_of_options options' = Some (Some (ssid cell)).
Proof.
  unfold configuration.
  destruct (encrypted cell); cbn [negb].
  - destruct (startswith "wpa" (encryption_type cell)).
    + destruct passkey; [|discriminate]. now intros [= <-].
    + destruct (String.eqb (encryption_type cell) "wep"); [|discriminate].
      now intros [= <-].
  - now intros [= <-].
Qed.

End ConfigurationErrors.

Lemma configuration_raises_iff_witness :
  configuration shown_kdf shown_PBKDF2 shown_hexread wpa_cell None
  = Raise TypeError.
Proof.
  apply (configuration_raises_iff shown_kdf shown_PBKDF2 shown_hexread
           wpa_cell None TypeError).
  split; [reflexivity|]. left. now repeat split.
Defined.

Lemma configuration_keeps_ssid_witness :
  configuration shown_kdf shown_PBKDF2 shown_hexread wpa_cell (Some "secret")
  = Ok [("wpa-ssid", Some "Cafe");
        ("wpa-psk", Some "PBKDF2(secret,Cafe)");
        ("wireless-channel", Some "auto")]
  /\ ssid_of_options
       [("wpa-ssid", Some "Cafe");
        ("wpa-psk", Some "PBKDF2(secret,Cafe)");
        ("wireless-channel", Some "auto")] = Some (Some "Cafe").
Proof.
  split; [reflexivity|].
  exact (configuration_keeps_ssid shown_kdf shown_PBKDF2 shown_hexread
           wpa_cell (Some "secret") _ eq_refl).
Defined.

(** ** What the parser yields *)

Lemma splitlines_cons (c : ascii) (rest : string) :
  splitlines (String c rest)
  = if is_linebreak c then
      match rest with
      | String c' rest' =>
          if Ascii.eqb c CR && Ascii.eqb c' LF
          then EmptyString :: splitlines rest'
          else EmptyString :: splitlines rest
      | EmptyString => [EmptyString]
      end
    else
      match splitlines rest with
      | [] => [String c EmptyString]
      | l :: ls => String c l :: ls
      end.
Proof. reflexivity. Qed.

Lemma splitlines_no_linebreak_step (s : string) :
  forallb no_linebreak (splitlines s) = true
  /\ forall c, forallb no_linebreak (splitlines (String c s)) = true.
Proof.
  unfold no_linebreak.
  induction s as [|c s [IH1 IH2]].
  - split; [reflexivity|]. intros c. cbn [splitlines].
    destruct (is_linebreak c) eqn:E; cbn; [reflexivity | now rewrite E].
  - split; [apply IH2|]. intros c'.
    rewrite (splitlines_cons c' (String c s)).
    destruct (is_linebreak c') eqn:E.
    + destruct (Ascii.eqb c' CR && Ascii.eqb c LF); cbn [forallb all_chars andb].
      * exact IH1.
      * apply IH2.
    + specialize (IH2 c).
      destruct (splitlines (String c s)) as [|l ls]; cbn [forallb all_chars] in *.
      * now rewrite E.
      * now rewrite E.
Qed.

Lemma splitlines_no_linebreak (s : string) :
  forallb no_linebreak (splitlines s) = true.
Proof. apply splitlines_no_linebreak_step. Qed.

Lemma lstrip_cases (s : string) :
  lstrip s = EmptyString \/ starts_nonspace (lstrip s) = true.
Proof.
  induction s as [|c s IH]; [now left|]. cbn [lstrip].
  destruct (is_space c) eqn:E; [exact IH|]. right. cbn. now rewrite E.
Qed.

Lemma lstrip_all_chars (f : ascii -> bool) (s : string) :
  all_chars f s = true -> all_chars f (lstrip s) = true.
Proof.
  induction s as [|c s IH]; [trivial|]. cbn [lstrip].
  destruct (is_space c); [|trivial].
  cbn [all_chars]. intros H. apply andb_prop in H as [_ H]. now apply IH.
Qed.

Lemma rstrip_cases (s : string) :
  rstrip s = EmptyString \/ ends_nonspace (rstrip s) = true.
Proof.
  induction s as [|c s IH]; [now left|]. cbn [rstrip].
  destruct (is_space c) eqn:E; cbn [andb].
  - destruct IH as [->|IH]; [now left|].
    rewrite (ends_nonspace_not_empty _ IH). right.
    cbn [ends_nonspace]. destruct (rstrip s); [discriminate IH | exact IH].
  - right. cbn [ends_nonspace].
    destruct IH as [->|IH]; [cbn; now rewrite E|].
    destruct (rstrip s); [discriminate IH | exact IH].
Qed.

Lemma rstrip_all_chars (f : ascii -> bool) (s : string) :
  all_chars f s = true -> all_chars f (rstrip s) = true.
Proof.
  induction s as [|c s IH]; [trivial|]. cbn [rstrip all_chars].
  intros H. apply andb_prop in H as [Hc Hs].
  destruct (is_space c && is_empty (rstrip s)); [reflexivity|].
  cbn [all_chars]. now rewrite Hc, IH.
Qed.

Lemma rstrip_starts_nonspace (s : string) :
  starts_nonspace s = true -> starts_nonspace (rstrip s) = true.
Proof.
  destruct s as [|c s]; [discriminate|]. cbn [starts_nonspace rstrip].
  intros H. apply negb_true_iff in H. rewrite H. cbn. now rewrite H.
Qed.

Lemma strip_cases (s : string) :
  strip s = EmptyString
  \/ (starts_nonspace (strip s) = true /\ ends_nonspace (strip s) = true).
Proof.
  unfold strip. destruct (lstrip_cases s) as [->|Hl]; [now left|].
  destruct (rstrip_cases (lstrip s)) as [Hr|Hr]; [now left|].
  right. split; [now apply rstrip_starts_nonspace | exact Hr].
Qed.

Lemma strip_no_linebreak (s : string) :
  no_linebreak s = true -> no_linebreak (strip s) = true.
Proof.
  unfold no_linebreak, strip. intros H.
  now apply rstrip_all_chars, lstrip_all_chars.
Qed.

(** [re.sub(r'\s{2,}', ' ', s)] leaves no two whitespace characters in
    a row and keeps the ends of the text. *)
Lemma sub_ws_runs_head (s : string) :
  head_is_space (sub_ws_runs false s) = head_is_space s
  /\ head_is_space (sub_ws_runs true s) = false.
Proof.
  induction s as [|c s [IH1 IH2]]; [now split|].
  cbn [sub_ws_runs head_is_space].
  destruct (is_space c) eqn:E.
  - split; [|exact IH2].
    destruct (head_is_space s); cbn [head_is_space]; [reflexivity | exact E].
  - cbn [head_is_space]. now split.
Qed.

Lemma sub_ws_runs_no_run (s : string) :
  forall in_run, no_ws_run (sub_ws_runs in_run s) = true.
Proof.
  induction s as [|c s IH]; intros in_run; [reflexivity|].
  cbn [sub_ws_runs].
  destruct (is_space c) eqn:E.
  - destruct in_run; [apply IH|].
    destruct (head_is_space s) eqn:Hs; cbn [no_ws_run].
    + rewrite (proj2 (sub_ws_runs_head s)), IH. reflexivity.
    + rewrite (proj1 (sub_ws_runs_head s)), Hs, IH, andb_false_r. reflexivity.
  - cbn [no_ws_run]. now rewrite E, IH.
Qed.

Lemma sub_ws_runs_starts_nonspace (s : string) :
  starts_nonspace s = true -> starts_nonspace (re_sub_ws s) = true.
Proof.
  destruct s as [|c s]; [discriminate|].
  unfold re_sub_ws. cbn [starts_nonspace sub_ws_runs].
  intros H. apply negb_true_iff in H. rewrite H. cbn. now rewrite H.
Qed.

Lemma sub_ws_runs_ends_nonspace (s : string) :
  ends_nonspace s = true ->
  forall in_run, ends_nonspace (sub_ws_runs in_run s) = true.
Proof.
  induction s as [|c s IH]; [discriminate|].
  intros H in_run. cbn [ends_nonspace] in H. destruct s as [|c' s].
  - apply negb_true_iff in H. cbn [sub_ws_runs]. rewrite H. cbn. now rewrite H.
  - specialize (IH H). remember (String c' s) as rest eqn:Hrest. clear Hrest.
    assert (Hcons : forall x b, ends_nonspace (String x (sub_ws_runs b rest)) = true).
    { intros x b. specialize (IH b). cbn [ends_nonspace].
      destruct (sub_ws_runs b rest); [discriminate IH | exact IH]. }
    cbn [sub_ws_runs].
    destruct (is_space c); [|apply Hcons].
    destruct in_run; [apply IH|].
    destruct (head_is_space rest); apply Hcons.
Qed.

Lemma space_is_no_linebreak : is_linebreak " " = false.
Proof. reflexivity. Qed.

Lemma sub_ws_runs_no_linebreak (s : string) :
  no_linebreak s = true ->
  forall in_run, no_linebreak (sub_ws_runs in_run s) = true.
Proof.
  unfold no_linebreak.
  induction s as [|c s IH]; [trivial|]. cbn [all_chars].
  intros H in_run. apply andb_prop in H as [Hc Hs].
  cbn [sub_ws_runs].
  destruct (is_space c); [destruct in_run; [now apply IH|] |].
  - destruct (head_is_space s); cbn [all_chars].
    + now rewrite space_is_no_linebreak, IH.
    + now rewrite Hc, IH.
  - cbn [all_chars]. now rewrite Hc, IH.
Qed.

Lemma split_space_1_two (t k v : string) :
  split_space_1 t = [k; v] ->
  t = k ++ String " " v /\ contains_char " " k = false.
Proof.
  revert k v. induction t as [|c t IH]; intros k v; [discriminate|].
  cbn [split_space_1].
  destruct (Ascii.eqb_spec c " "%char) as [->|Hc].
  - intros [= <- <-]. now split.
  - destruct (split_space_1 t) as [|l [|l' [|x y]]] eqn:E; try discriminate.
    intros [= <- <-]. destruct (IH l l' eq_refl) as [-> Hl].
    split; [reflexivity|]. cbn [contains_char]. rewrite Hl.
    apply Ascii.eqb_neq in Hc. now rewrite Hc.
Qed.

Lemma no_ws_run_app_l (a b : string) :
  no_ws_run (a ++ b) = true -> no_ws_run a = true.
Proof.
  induction a as [|c a IH]; [reflexivity|]. cbn [append no_ws_run].
  intros H. apply andb_prop in H as [Hc Ha]. rewrite (IH Ha), andb_true_r.
  destruct a as [|c' a]; [cbn; now rewrite andb_false_r | exact Hc].
Qed.

Lemma no_ws_run_app_r (a b : string) :
  no_ws_run (a ++ b) = true -> no_ws_run b = true.
Proof.
  induction a as [|c a IH]; [trivial|]. cbn [append no_ws_run].
  intros H. apply andb_prop in H as [_ Ha]. now apply IH.
Qed.

Lemma ends_nonspace_before_space (k v : string) :
  is_empty k = false ->
  no_ws_run (k ++ String " " v) = true -> ends_nonspace k = true.
Proof.
  induction k as [|c k IH]; [discriminate|]. intros _.
  cbn [append no_ws_run ends_nonspace]. intros H.
  apply andb_prop in H as [Hc Hk]. destruct k as [|c' k].
  - cbn in Hc. now rewrite andb_true_r in Hc.
  - now apply IH.
Qed.

Lemma ends_nonspace_app_inv (a b : string) :
  ends_nonspace (a ++ b) = true -> is_empty b = false -> ends_nonspace b = true.
Proof.
  intros H Hb. induction a as [|c a IH]; [exact H|].
  apply IH. cbn [append ends_nonspace] in H.
  pose proof (is_empty_app_r a b Hb) as Hne.
  destruct (a ++ b); [discriminate Hne | exact H].
Qed.

Lemma ends_nonspace_space (a : string) :
  ends_nonspace (a ++ " ") = false.
Proof.
  induction a as [|c a IH]; [reflexivity|]. cbn [append ends_nonspace].
  destruct (a ++ " ") eqn:E; [destruct a; discriminate E | exact IH].
Qed.

(** An option line that parses gives a key and a value that an option
    line gives back as they are. *)
Lemma parse_option_line_plain (l k v : string) :
  no_linebreak l = true ->
  parse_option_line l = Ok (k, v) ->
  is_option_key k = true /\ is_option_value v = true.
Proof.
  unfold parse_option_line. intros Hlb H.
  destruct (split_space_1 (re_sub_ws (strip l))) as [|k' [|v' [|x y]]] eqn:E;
    try discriminate.
  injection H as -> ->.
  destruct (split_space_1_two _ _ _ E) as [Ht Hk].
  destruct (strip_cases l) as [Hs|[Hs1 Hs2]].
  { rewrite Hs in E. discriminate E. }
  pose proof (sub_ws_runs_starts_nonspace _ Hs1) as H1.
  pose proof (sub_ws_runs_ends_nonspace _ Hs2 false) as H2.
  pose proof (sub_ws_runs_no_run (strip l) false) as H3.
  pose proof (sub_ws_runs_no_linebreak _ (strip_no_linebreak l Hlb) false) as H4.
  fold (re_sub_ws (strip l)) in H2, H3, H4. rewrite Ht in H1, H2, H3, H4.
  unfold no_linebreak in H4. rewrite all_chars_app in H4.
  apply andb_prop in H4 as [H4k H4v]. cbn [all_chars] in H4v.
  assert (Hkne : is_empty k = false).
  { destruct k; [discriminate H1 | reflexivity]. }
  assert (Hvne : is_empty v = false).
  { destruct v; [|reflexivity]. now rewrite ends_nonspace_space in H2. }
  assert (Hv3 : no_ws_run (String " " v) = true) by exact (no_ws_run_app_r _ _ H3).
  cbn [no_ws_run] in Hv3. apply andb_prop in Hv3 as [Hvh Hv3].
  unfold is_option_key, is_option_value, clean, no_linebreak.
  rewrite Hk, H4k, Hv3, (no_ws_run_app_l _ _ H3),
    (ends_nonspace_before_space k v Hkne H3).
  replace (starts_nonspace k) with true
    by (destruct k; [discriminate Hkne | symmetry; exact H1]).
  replace (ends_nonspace v) with true.
  2: { symmetry. apply (ends_nonspace_app_inv (k ++ " ") v); [|exact Hvne].
       now rewrite append_assoc. }
  replace (starts_nonspace v) with true.
  2: { destruct v; [discriminate Hvne|]. symmetry. exact Hvh. }
  apply andb_prop in H4v as [_ ->]. now split.
Qed.

(** What the pattern captures is an interface name and a scheme name. *)
Lemma span_all_chars (f : ascii -> bool) (s : string) :
  all_chars f (fst (span f s)) = true.
Proof.
  induction s as [|c s IH]; [reflexivity|]. cbn [span].
  destruct (f c) eqn:E; [|reflexivity].
  destruct (span f s). cbn [fst all_chars] in *. now rewrite E, IH.
Qed.

Lemma scheme_re_match_names (line i n : string) :
  scheme_re_match line = Some (i, Some n) ->
  is_interface_name i = true /\ is_scheme_name n = true.
Proof.
  unfold scheme_re_match.
  destruct (strip_prefix "iface" line) as [after_iface|]; [|discriminate].
  destruct (span is_space after_iface) as [ws after_ws].
  destruct (is_empty ws); [discriminate|].
  destruct (strip_prefix "wlan" after_ws) as [after_wlan|]; [|discriminate].
  assert (Hname : forall i' rest,
            (let (w, _) := span is_word rest in
             if is_empty w then Some (i', @None string) else Some (i', Some w))
            = Some (i, Some n) ->
            i' = i /\ is_scheme_name n = true).
  { intros i' rest. pose proof (span_all_chars is_word rest) as Hw.
    destruct (span is_word rest) as [w r]. cbn [fst] in Hw.
    destruct (is_empty w) eqn:E; [discriminate|].
    intros [= -> <-]. unfold is_scheme_name. now rewrite E, Hw. }
  destruct after_wlan as [|d rest].
  - discriminate.
  - destruct (is_digit d) eqn:Hd.
    + destruct rest as [|c rest]; [discriminate|].
      destruct (Ascii.eqb_spec c "-"%char) as [->|Hc].
      * intros H. destruct (Hname _ _ H) as [<- Hn]. split; [|exact Hn].
        unfold is_interface_name. cbn. exact Hd.
      * destruct c as [[] [] [] [] [] [] [] []]; try discriminate.
        now contradiction Hc.
    + destruct (Ascii.eqb_spec d "-"%char) as [->|Hc].
      * intros H. destruct (Hname _ _ H) as [<- Hn]. now split.
      * destruct d as [[] [] [] [] [] [] [] []]; try discriminate.
        now contradiction Hc.
Qed.

Lemma plain_options_dict_set (k v : string) (d : dict string) :
  is_option_key k = true -> is_option_value v = true ->
  plain_options d = true -> plain_options (dict_set k v d) = true.
Proof.
  unfold plain_options. intros Hk Hv.
  induction d as [|[k' v'] d IH]; cbn [dict_set forallb fst snd].
  - now rewrite Hk, Hv.
  - intros H. apply andb_prop in H as [Hkv Hd].
    apply andb_prop in Hkv as [Hk' Hv'].
    destruct (String.eqb k' k); cbn [forallb fst snd].
    + now rewrite Hk', Hv, Hd.
    + now rewrite Hk', Hv', (IH Hd).
Qed.

Lemma read_option_lines_keeps (lines : list string) :
  forall (d d' : dict string) (rest : list string),
    forallb no_linebreak lines = true ->
    read_option_lines lines d = Ok (d', rest) ->
    (NoDup (keys d) -> plain_options d = true ->
     NoDup (keys d') /\ plain_options d' = true)
    /\ forallb no_linebreak rest = true
    /\ length rest <= length lines.
Proof.
  induction lines as [|l lines IH]; intros d d' rest Hlb H.
  - injection H as <- <-. now repeat split.
  - cbn [forallb] in Hlb. apply andb_prop in Hlb as [Hl Hlines].
    cbn [read_option_lines] in H.
    destruct (startswith " " l).
    + destruct (parse_option_line l) as [[k v]|e] eqn:E; [|discriminate].
      destruct (parse_option_line_plain l k v Hl E) as [Hk Hv].
      destruct (IH _ _ _ Hlines H) as (Hgood & Hrest & Hlen).
      split; [|split; [exact Hrest | cbn [length]; lia]].
      intros Hdup Hplain. apply Hgood.
      * now apply NoDup_keys_dict_set.
      * now apply plain_options_dict_set.
    + injection H as <- <-. split; [now split|].
      split; [cbn [forallb]; now rewrite Hl, Hlines | lia].
Qed.

Lemma extract_lines_parsable_bounded (n : nat) :
  forall lines : list string,
    length lines <= n ->
    forallb no_linebreak lines = true ->
    Forall parsable (fst (extract_lines lines)).
Proof.
  induction n as [|n IH]; intros lines Hlen Hlb.
  - destruct lines; [constructor | cbn in Hlen; lia].
  - destruct lines as [|line lines]; [constructor|].
    cbn [length] in Hlen. cbn [forallb] in Hlb.
    apply andb_prop in Hlb as [Hline Hlines].
    assert (Hnext : Forall parsable (fst (extract_lines lines)))
      by (apply IH; [lia | exact Hlines]).
    destruct (startswith "#" line || is_empty line) eqn:Hc.
    { now rewrite (extract_lines_skip_comment _ _ Hc). }
    destruct (names_scheme line) eqn:Hn.
    2: { now rewrite (extract_lines_skip_unnamed _ _ Hn). }
    unfold names_scheme in Hn.
    destruct (scheme_re_match line) as [[i [nm|]]|] eqn:Hm; try discriminate.
    apply orb_false_elim in Hc as [Hc _].
    rewrite (extract_lines_stanza _ _ _ _ Hc Hm).
    destruct (read_option_lines lines []) as [[d rest]|e] eqn:Hr; [|constructor].
    destruct (read_option_lines_keeps _ _ _ _ Hlines Hr) as (Hgood & Hrest & Hle).
    cbn [yield fst]. constructor.
    + destruct (scheme_re_match_names _ _ _ Hm) as [Hi Hnm].
      destruct (Hgood (NoDup_nil _) eq_refl) as [Hdup Hplain].
      now repeat split.
    + apply IH; [lia | exact Hrest].
Qed.

(** X8 (what the parser yields): every Scheme the parser yields, from
    any text and also before an error, has an interface that is [wlan]
    or [wlan] and a digit, a name that is a non-empty run of word
    characters, pairwise distinct keys, and keys and values that are not
    empty, have no whitespace at either end, no two whitespace
    characters in a row and no line boundary, with no space in a key. *)
Theorem parsed_schemes_are_parsable (interfaces : string) (s : Scheme) :
  In s (fst (extract_schemes interfaces)) -> parsable s.
Proof.
  intros Hin.
  pose proof (extract_lines_parsable_bounded _ (splitlines interfaces)
                (le_n _) (splitlines_no_linebreak interfaces)) as H.
  rewrite Forall_forall in H. now apply H.
Qed.

Lemma parsed_schemes_are_parsable_witness : parsable home.
Proof.
  apply (parsed_schemes_are_parsable (Scheme_str home) home).
  vm_compute. now left.
Defined.

(** ** Serialized schemes, parsed *)

Lemma splitlines_Scheme_str (s : Scheme) :
  parsable s ->
  splitlines (Scheme_str s) = header_of s :: map option_line (options s).
Proof.
  intros (Hi & Hn & _ & Hplain).
  destruct (plain_options_lines _ Hplain) as (Hlb & _ & _).
  unfold Scheme_str, header_of.
  change (fun kv : string * string => NL ++ "    " ++ fst kv ++ " " ++ snd kv)
    with (fun kv : string * string => NL ++ option_line kv).
  apply (splitlines_stanza (options s) _
           (header_no_linebreak _ _ Hi Hn) Hlb).
Qed.

Lemma extract_lines_serialized (s : Scheme) (rest : list string) :
  parsable s ->
  match rest with [] => True | l :: _ => startswith " " l = false end ->
  extract_lines (header_of s :: map option_line (options s) ++ rest)
  = yield s (extract_lines rest).
Proof.
  intros (Hi & Hn & Hdup & Hplain) Hrest.
  destruct (plain_options_lines _ Hplain) as (_ & Hsp & Hparse).
  rewrite (extract_lines_stanza (header_of s) (interface s) (name s) _
             eq_refl (scheme_re_match_header _ _ Hi Hn)).
  rewrite (read_option_lines_all _ (options s) rest [] Hsp Hparse Hrest).
  rewrite (set_all_fresh (options s) [] Hdup). now destruct s.
Qed.

(** X9 (the parser's output round-trips): every Scheme the parser
    yields, serialized and parsed again, gives exactly that Scheme and
    no error. *)
Theorem parsed_scheme_reparses (interfaces : string) (s : Scheme) :
  In s (fst (extract_schemes interfaces)) ->
  extract_schemes (Scheme_str s) = ([s], None).
Proof.
  intros Hin.
  pose proof (extract_lines_parsable_bounded _ (splitlines interfaces)
                (le_n _) (splitlines_no_linebreak interfaces)) as H.
  rewrite Forall_forall in H. specialize (H s Hin).
  unfold extract_schemes. rewrite (splitlines_Scheme_str s H).
  rewrite <- (app_nil_r (map option_line (options s))).
  now rewrite (extract_lines_serialized s [] H I).
Qed.

Lemma parsed_scheme_reparses_witness :
  In {| interface := "wlan0"; name := "cafe";
        options := [("wireless-essid", "My Cafe"); ("wireless-channel", "auto")] |}
     (fst (extract_schemes (Scheme_str cafe)))
  /\ extract_schemes
       (Scheme_str
          {| interface := "wlan0"; name := "cafe";
             options := [("wireless-essid", "My Cafe");
                         ("wireless-channel", "auto")] |})
     = ([ {| interface := "wlan0"; name := "cafe";
             options := [("wireless-essid", "My Cafe");
                         ("wireless-channel", "auto")] |} ], None).
Proof.
  assert (H : In {| interface := "wlan0"; name := "cafe";
                    options := [("wireless-essid", "My Cafe");
                                ("wireless-channel", "auto")] |}
                 (fst (extract_schemes (Scheme_str cafe))))
    by (vm_compute; now left).
  exact (conj H (parsed_scheme_reparses (Scheme_str cafe) _ H)).
Defined.

(** ** Text put after a file *)

Lemma splitlines_newline (t : string) :
  splitlines (String LF t) = EmptyString :: splitlines t.
Proof. destruct t; reflexivity. Qed.

Lemma splitlines_not_nil (c : ascii) (s : string) : splitlines (String c s) <> [].
Proof.
  rewrite splitlines_cons. destruct (is_linebreak c).
  - destruct s as [|c' s]; [discriminate|].
    destruct (Ascii.eqb c CR && Ascii.eqb c' LF); discriminate.
  - destruct (splitlines s); discriminate.
Qed.

Lemma splitlines_then_newline_step (a : string) :
  (forall t, exists sep,
      (sep = [] \/ sep = [EmptyString])
      /\ splitlines (a ++ String LF t) = (splitlines a ++ sep ++ splitlines t)%list)
  /\
  (forall c t, exists sep,
      (sep = [] \/ sep = [EmptyString])
      /\ splitlines (String c a ++ String LF t)
         = (splitlines (String c a) ++ sep ++ splitlines t)%list).
Proof.
  induction a as [|c a [IH1 IH2]].
  - split.
    + intros t. exists [EmptyString]. split; [now right|].
      cbn [append]. now rewrite splitlines_newline.
    + intros c t. cbn [append].
      rewrite (splitlines_cons c (String LF t)), (splitlines_cons c EmptyString).
      rewrite splitlines_newline.
      destruct (is_linebreak c).
      * destruct (Ascii.eqb c CR && Ascii.eqb LF LF).
        -- exists []. split; [now left | reflexivity].
        -- exists [EmptyString]. split; [now right | reflexivity].
      * exists []. split; [now left | reflexivity].
  - split; [apply IH2|]. intros c' t.
    change (String c' (String c a) ++ String LF t)
      with (String c' (String c a ++ String LF t)).
    rewrite (splitlines_cons c' (String c a ++ String LF t)).
    rewrite (splitlines_cons c' (String c a)).
    destruct (is_linebreak c').
    + change (String c a ++ String LF t) with (String c (a ++ String LF t)).
      cbv iota. destruct (Ascii.eqb c' CR && Ascii.eqb c LF).
      * destruct (IH1 t) as (sep & Hsep & ->). exists sep. now split.
      * change (String c (a ++ String LF t)) with (String c a ++ String LF t).
        destruct (IH2 c t) as (sep & Hsep & ->). exists sep. now split.
    + destruct (IH2 c t) as (sep & Hsep & ->). exists sep. split; [exact Hsep|].
      pose proof (splitlines_not_nil c a) as Hne.
      destruct (splitlines (String c a)) as [|l ls]; [contradiction|reflexivity].
Qed.

Lemma splitlines_then_newline (a t : string) :
  exists sep,
    (sep = [] \/ sep = [EmptyString])
    /\ splitlines (a ++ String LF t) = (splitlines a ++ sep ++ splitlines t)%list.
Proof. apply splitlines_then_newline_step. Qed.

(** ** Lines put after lines *)

Lemma read_option_lines_app (l1 l2 : list string) :
  match l2 with [] => True | l :: _ => startswith " " l = false end ->
  forall d,
    read_option_lines (l1 ++ l2) d
    = match read_option_lines l1 d with
      | Ok (d', rest) => Ok (d', (rest ++ l2)%list)
      | Raise e => Raise e
      end.
Proof.
  intros Hl2. induction l1 as [|l l1 IH]; intros d.
  - cbn [app read_option_lines]. destruct l2 as [|l l2]; [reflexivity|].
    cbn [read_option_lines]. now rewrite Hl2.
  - cbn [app read_option_lines]. destruct (startswith " " l); [|reflexivity].
    destruct (parse_option_line l) as [[k v]|e]; [apply IH | reflexivity].
Qed.

Lemma read_option_lines_shorter (lines : list string) :
  forall d d' rest,
    read_option_lines lines d = Ok (d', rest) -> length rest <= length lines.
Proof.
  induction lines as [|l lines IH]; intros d d' rest H.
  - injection H as <- <-. reflexivity.
  - cbn [read_option_lines] in H. destruct (startswith " " l).
    + destruct (parse_option_line l) as [[k v]|e]; [|discriminate].
      apply IH in H. cbn [length]. lia.
    + injection H as <- <-. reflexivity.
Qed.

Lemma extract_lines_app_bounded (n : nat) :
  forall l1 l2 : list string,
    length l1 <= n ->
    match l2 with [] => True | l :: _ => startswith " " l = false end ->
    extract_lines (l1 ++ l2)
    = match snd (extract_lines l1) with
      | None => ((fst (extract_lines l1) ++ fst (extract_lines l2))%list,
                 snd (extract_lines l2))
      | Some e => extract_lines l1
      end.
Proof.
  induction n as [|n IH]; intros l1 l2 Hlen Hl2.
  - destruct l1; [|cbn in Hlen; lia]. cbn [app extract_lines finished fst snd].
    now destruct (extract_lines l2).
  - destruct l1 as [|line lines].
    { cbn [app extract_lines finished fst snd]. now destruct (extract_lines l2). }
    cbn [length] in Hlen. change ((line :: lines) ++ l2)%list with (line :: lines ++ l2)%list.
    destruct (startswith "#" line || is_empty line) eqn:Hc.
    { rewrite !(extract_lines_skip_comment _ _ Hc). apply IH; [lia | exact Hl2]. }
    destruct (names_scheme line) eqn:Hn.
    2: { rewrite !(extract_lines_skip_unnamed _ _ Hn). apply IH; [lia | exact Hl2]. }
    unfold names_scheme in Hn.
    destruct (scheme_re_match line) as [[i [nm|]]|] eqn:Hm; try discriminate.
    apply orb_false_elim in Hc as [Hc _].
    rewrite !(extract_lines_stanza _ _ _ _ Hc Hm).
    rewrite (read_option_lines_app lines l2 Hl2).
    destruct (read_option_lines lines []) as [[d rest]|e] eqn:Hr; [|reflexivity].
    pose proof (read_option_lines_shorter _ _ _ _ Hr) as Hle.
    rewrite (IH rest l2 ltac:(lia) Hl2).
    cbn [yield fst snd]. destruct (snd (extract_lines rest)); reflexivity.
Qed.

Lemma extract_lines_app (l1 l2 : list string) (items : list Scheme) :
  extract_lines l1 = (items, None) ->
  match l2 with [] => True | l :: _ => startswith " " l = false end ->
  extract_lines (l1 ++ l2)
  = ((items ++ fst (extract_lines l2))%list, snd (extract_lines l2)).
Proof.
  intros H1 Hl2.
  rewrite (extract_lines_app_bounded _ l1 l2 (le_n _) Hl2). now rewrite H1.
Qed.

(** ** Saving *)

Lemma parsable_guest : parsable guest.
Proof.
  repeat split; try (vm_compute; reflexivity).
  repeat constructor; cbn; intuition discriminate.
Qed.

Lemma extract_schemes_after (file : string) (s : Scheme) (items : list Scheme) :
  parsable s ->
  extract_schemes file = (items, None) ->
  extract_schemes (file ++ NL ++ Scheme_str s) = ((items ++ [s])%list, None).
Proof.
  intros Hs Hfile. unfold extract_schemes in *.
  change (file ++ NL ++ Scheme_str s) with (file ++ String LF (Scheme_str s)).
  destruct (splitlines_then_newline file (Scheme_str s)) as (sep & Hsep & ->).
  rewrite (splitlines_Scheme_str s Hs).
  assert (Hl2 : extract_lines (sep ++ header_of s :: map option_line (options s))
                = ([s], None)).
  { assert (H : extract_lines (header_of s :: map option_line (options s))
                = ([s], None)).
    { rewrite <- (app_nil_r (map option_line (options s))).
      now rewrite (extract_lines_serialized s [] Hs I). }
    destruct Hsep as [->| ->]; [exact H|].
    cbn [app]. now rewrite (extract_lines_skip_comment EmptyString _ eq_refl). }
  rewrite (extract_lines_app _ _ items Hfile); [now rewrite Hl2|].
  destruct Hsep as [->| ->]; reflexivity.
Qed.

Lemma save_succeeds (self : Scheme) (file file' : string) :
  Scheme_save self file = (Ok tt, file') ->
  file' = file ++ NL ++ Scheme_str self
  /\ exists items,
       extract_schemes file = (items, None)
       /\ filter (fun s => String.eqb (interface s) (interface self)
                           && String.eqb (name s) (name self)) items = [].
Proof.
  unfold Scheme_save, Scheme_find, Scheme_where, Scheme_all, to_list.
  destruct (extract_schemes file) as [items [e|]]; cbn [fst snd].
  - discriminate.
  - destruct (filter _ items) as [|x l] eqn:E; [|discriminate].
    intros [= <-]. split; [reflexivity|]. now exists items.
Qed.

(** X3 (listing after a save): when [save] of a parsable Scheme
    succeeds, the file then lists the schemes it listed before, in the
    same order, followed by the saved Scheme, and parses without error. *)
Theorem all_after_save (self : Scheme) (file file' : string) :
  parsable self ->
  Scheme_save self file = (Ok tt, file') ->
  Scheme_all file' = ((fst (Scheme_all file) ++ [self])%list, None).
Proof.
  intros Hs Hsave.
  destruct (save_succeeds _ _ _ Hsave) as (-> & items & Hitems & _).
  unfold Scheme_all. rewrite Hitems. cbn [fst].
  now apply extract_schemes_after.
Qed.

Lemma all_after_save_witness :
  parsable guest
  /\ Scheme_save guest two_stanzas = (Ok tt, two_stanzas ++ NL ++ Scheme_str guest)
  /\ Scheme_all (two_stanzas ++ NL ++ Scheme_str guest)
     = ((fst (Scheme_all two_stanzas) ++ [guest])%list, None).
Proof.
  assert (H : Scheme_save guest two_stanzas
              = (Ok tt, two_stanzas ++ NL ++ Scheme_str guest))
    by (vm_compute; reflexivity).
  exact (conj parsable_guest (conj H
           (all_after_save guest two_stanzas _ parsable_guest H))).
Defined.

Lemma filter_app_one (fn : Scheme -> bool) (items : list Scheme) (s : Scheme) :
  filter fn (items ++ [s]) = (filter fn items ++ if fn s then [s] else [])%list.
Proof. now rewrite filter_app. Qed.

(** X4 (find after save): when [save] of a parsable Scheme succeeds,
    [find] with its interface and name then returns that Scheme. *)
Theorem find_after_save (self : Scheme) (file file' : string) :
  parsable self ->
  Scheme_save self file = (Ok tt, file') ->
  Scheme_find (interface self) (name self) file' = Ok (Some self).
Proof.
  intros Hs Hsave.
  destruct (save_succeeds _ _ _ Hsave) as (-> & items & Hitems & Hnone).
  unfold Scheme_find, Scheme_where, Scheme_all, to_list.
  rewrite (extract_schemes_after file self items Hs Hitems). cbn [fst snd].
  now rewrite filter_app_one, Hnone, !String.eqb_refl.
Qed.

Lemma find_after_save_witness :
  parsable guest
  /\ Scheme_save guest two_stanzas = (Ok tt, two_stanzas ++ NL ++ Scheme_str guest)
  /\ Scheme_find "wlan1" "guest" (two_stanzas ++ NL ++ Scheme_str guest)
     = Ok (Some guest).
Proof.
  assert (H : Scheme_save guest two_stanzas
              = (Ok tt, two_stanzas ++ NL ++ Scheme_str guest))
    by (vm_compute; reflexivity).
  exact (conj parsable_guest (conj H
           (find_after_save guest two_stanzas _ parsable_guest H))).
Defined.

(** X5 (other lookups after save): when [save] of a parsable Scheme
    succeeds, [find] with any other interface or name returns what it
    returned before. *)
Theorem find_other_after_save (self : Scheme) (file file' : string)
        (interface' name' : string) :
  parsable self ->
  Scheme_save self file = (Ok tt, file') ->
  interface' <> interface self \/ name' <> name self ->
  Scheme_find interface' name' file' = Scheme_find interface' name' file.
Proof.
  intros Hs Hsave Hother.
  destruct (save_succeeds _ _ _ Hsave) as (-> & items & Hitems & _).
  unfold Scheme_find, Scheme_where, Scheme_all, to_list.
  rewrite (extract_schemes_after file self items Hs Hitems), Hitems.
  cbn [fst snd]. rewrite filter_app_one.
  assert (Hno : String.eqb (interface self) interface'
                && String.eqb (name self) name' = false).
  { apply andb_false_iff.
    destruct Hother as [H|H]; [left | right]; apply String.eqb_neq; congruence. }
  rewrite Hno, app_nil_r. reflexivity.
Qed.

Lemma find_other_after_save_witness :
  parsable guest
  /\ Scheme_save guest two_stanzas = (Ok tt, two_stanzas ++ NL ++ Scheme_str guest)
  /\ Scheme_find "wlan0" "home" (two_stanzas ++ NL ++ Scheme_str guest)
     = Scheme_find "wlan0" "home" two_stanzas.
Proof.
  assert (H : Scheme_save guest two_stanzas
              = (Ok tt, two_stanzas ++ NL ++ Scheme_str guest))
    by (vm_compute; reflexivity).
  refine (conj parsable_guest (conj H
            (find_other_after_save guest two_stanzas _ "wlan0" "home"
               parsable_guest H _))).
  left. discriminate.
Defined.

(** X6 (saving twice): when [save] of a parsable Scheme succeeds, a
    second [save] of it fails with the assertion error and leaves the
    file as the first left it. *)
Theorem save_twice_fails (self : Scheme) (file file' : string) :
  parsable self ->
  Scheme_save self file = (Ok tt, file') ->
  Scheme_save self file'
  = (Raise (AssertionError "This scheme already exists"), file').
Proof.
  intros Hs Hsave.
  destruct (save_succeeds _ _ _ Hsave) as (-> & items & Hitems & Hnone).
  unfold Scheme_save at 1, Scheme_find, Scheme_where, Scheme_all, to_list.
  rewrite (extract_schemes_after file self items Hs Hitems). cbn [fst snd].
  now rewrite filter_app_one, Hnone, !String.eqb_refl.
Qed.

Lemma save_twice_fails_witness :
  parsable guest
  /\ Scheme_save guest two_stanzas = (Ok tt, two_stanzas ++ NL ++ Scheme_str guest)
  /\ Scheme_save guest (two_stanzas ++ NL ++ Scheme_str guest)
     = (Raise (AssertionError "This scheme already exists"),
        two_stanzas ++ NL ++ Scheme_str guest).
Proof.
  assert (H : Scheme_save guest two_stanzas
              = (Ok tt, two_stanzas ++ NL ++ Scheme_str guest))
    by (vm_compute; reflexivity).
  exact (conj parsable_guest (conj H
           (save_twice_fails guest two_stanzas _ parsable_guest H))).
Defined.

Example save_cafe_then_find :
  Scheme_find "wlan0" "cafe" (two_stanzas ++ NL ++ Scheme_str cafe)
  = Ok (Some {| interface := "wlan0"; name := "cafe";
                options := [("wireless-essid", "My Cafe");
                            ("wireless-channel", "auto")] |}).
Proof. vm_compute. reflexivity. Qed.

(** ** Deleting *)

Lemma kept_lines_no_header (iface : string) (lines : list string) :
  forall skip,
    forallb (fun l => negb (is_header iface l)) (kept_lines iface skip lines) = true.
Proof.
  induction lines as [|line lines IH]; intros skip; [reflexivity|].
  cbn [kept_lines]. unfold is_header, is_blank in *.
  destruct (is_empty (strip line)) eqn:Hb; cbn [negb forallb].
  - rewrite Hb. cbn. apply IH.
  - destruct (String.eqb (strip line) iface) eqn:Hh; cbn [negb]; [apply IH|].
    destruct skip; cbn [negb forallb]; [apply IH|].
    rewrite Hb, Hh. cbn. apply IH.
Qed.

(** X7 (nothing left to delete): after [delete], no line of the file,
    once stripped, is the header of the Scheme. *)
Theorem delete_leaves_no_header (self : Scheme) (file : string) :
  forallb (fun l => negb (is_header (header_of self) l))
          (readlines (Scheme_delete self file)) = true.
Proof.
  rewrite delete_kept.
  rewrite readlines_join by (apply kept_file_lines, readlines_file_lines).
  apply kept_lines_no_header.
Qed.

(** A newline put after a line changes nothing for [strip]. *)
Lemma rstrip_all_space (t : string) : all_space t = true -> rstrip t = EmptyString.
Proof.
  unfold all_space. induction t as [|c t IH]; [reflexivity|].
  cbn [all_chars rstrip]. intros H. apply andb_prop in H as [Hc Ht].
  now rewrite (IH Ht), Hc.
Qed.

Lemma rstrip_app_space (s t : string) :
  all_space t = true -> rstrip (s ++ t) = rstrip s.
Proof.
  intros Ht. induction s as [|c s IH]; [now apply rstrip_all_space|].
  cbn [append rstrip]. now rewrite IH.
Qed.

Lemma lstrip_app_space (s t : string) :
  all_space t = true ->
  (lstrip s = EmptyString /\ lstrip (s ++ t) = EmptyString)
  \/ lstrip (s ++ t) = lstrip s ++ t.
Proof.
  intros Ht. induction s as [|c s IH]; cbn [append lstrip].
  - left. split; [reflexivity|]. unfold all_space in Ht.
    induction t as [|c t IHt]; [reflexivity|].
    cbn [all_chars] in Ht. apply andb_prop in Ht as [Hc Ht].
    cbn [lstrip]. rewrite Hc. now apply IHt.
  - destruct (is_space c); [exact IH | now right].
Qed.

Lemma strip_app_space (s t : string) :
  all_space t = true -> strip (s ++ t) = strip s.
Proof.
  intros Ht. unfold strip.
  destruct (lstrip_app_space s t Ht) as [[-> ->]| ->]; [reflexivity|].
  now apply rstrip_app_space.
Qed.

Lemma is_header_newline (iface l : string) :
  is_header iface (l ++ NL) = is_header iface l.
Proof.
  unfold is_header, is_blank. now rewrite (strip_app_space l NL eq_refl).
Qed.

Lemma is_blank_newline (l : string) : is_blank (l ++ NL) = is_blank l.
Proof.
  unfold is_blank. now rewrite (strip_app_space l NL eq_refl).
Qed.

(** The lines of a file and of the same file with a newline after it. *)
Lemma readlines_full_lines (ls : list string) :
  Forall full_line ls ->
  forall t, readlines (join ls ++ t) = (ls ++ readlines t)%list.
Proof.
  induction 1 as [|l ls [body Hbody] Hls IH]; intros t; [reflexivity|].
  cbn [join app]. rewrite append_assoc, (readlines_full_line body _ Hbody).
  now rewrite IH.
Qed.

Lemma readlines_then_newline (ls : list string) :
  file_lines ls ->
  exists ls',
    readlines (join ls ++ NL) = ls'
    /\ Forall full_line ls'
    /\ forall iface,
         forallb (fun l => negb (is_header iface l)) ls = true ->
         forallb (fun l => negb (is_header iface l)) ls' = true.
Proof.
  induction 1 as [| l Hl Hne | l ls Hl Hls (ls' & Hls' & Hfull & Hkeep)].
  - exists [NL]. split; [reflexivity | split].
    + constructor; [exact (full_line_intro EmptyString eq_refl) | constructor].
    + intros iface _. reflexivity.
  - exists [l ++ NL]. cbn [join]. rewrite append_nil_r. split; [|split].
    + pose proof (readlines_full_line l EmptyString Hl) as H.
      rewrite append_nil_r in H. exact H.
    + constructor; [now apply full_line_intro | constructor].
    + intros iface. cbn [forallb]. now rewrite is_header_newline.
  - exists (l :: ls'). cbn [join]. split; [|split].
    + destruct Hl as [body Hbody].
      now rewrite append_assoc, (readlines_full_line body _ Hbody), Hls'.
    + now constructor.
    + intros iface. cbn [forallb]. intros H. apply andb_prop in H as [H1 H2].
      now rewrite H1, (Hkeep iface H2).
Qed.

(** The text of a Scheme, line by line. *)
Lemma Scheme_str_lines_from (a : string) (opts : dict string) :
  a ++ join (map (fun kv => NL ++ "    " ++ fst kv ++ " " ++ snd kv) opts) ++ NL
  = join ((a ++ NL) :: map (fun kv => option_line kv ++ NL) opts).
Proof.
  revert a. induction opts as [|kv opts IH]; intros a.
  - cbn [map join]. now rewrite append_nil_r.
  - cbn [map join].
    change ("    " ++ fst kv ++ " " ++ snd kv) with (option_line kv).
    specialize (IH (option_line kv)). cbn [join] in IH.
    rewrite !append_assoc in IH. rewrite !append_assoc. now rewrite IH.
Qed.

Lemma Scheme_str_lines (s : Scheme) :
  Scheme_str s
  = join ((header_of s ++ NL) :: map (fun kv => option_line kv ++ NL) (options s)).
Proof.
  unfold Scheme_str, header_of.
  rewrite <- Scheme_str_lines_from. now rewrite !append_assoc.
Qed.

Lemma no_linebreak_no_newline (s : string) :
  no_linebreak s = true -> no_newline s = true.
Proof.
  unfold no_linebreak. induction s as [|c s IH]; [reflexivity|].
  cbn [all_chars no_newline]. intros H. apply andb_prop in H as [Hc Hs].
  rewrite (IH Hs), andb_true_r.
  destruct (Ascii.eqb_spec c LF) as [->|]; [discriminate Hc | reflexivity].
Qed.

Lemma strip_header_of (s : Scheme) : strip (header_of s) = header_of s.
Proof.
  unfold strip, header_of.
  rewrite lstrip_starts_nonspace by reflexivity.
  apply rstrip_ends_nonspace.
  apply (ends_nonspace_app "iface "), (ends_nonspace_app (interface s)),
    (ends_nonspace_app "-"), (ends_nonspace_app (name s)).
  reflexivity.
Qed.

Lemma is_header_header_line (s : Scheme) :
  is_header (header_of s) (header_of s ++ NL) = true.
Proof.
  rewrite is_header_newline. unfold is_header, is_blank.
  rewrite strip_header_of, String.eqb_refl. reflexivity.
Qed.

Lemma strip_option_line (k v : string) :
  is_option_key k = true -> is_option_value v = true ->
  strip (option_line (k, v)) = k ++ String " " v.
Proof.
  unfold is_option_key, is_option_value. intros Hk Hv.
  apply andb_prop in Hk as [Hk _].
  destruct (clean_parts k Hk) as (Hk1 & _).
  destruct (clean_parts v Hv) as (_ & Hv2 & _).
  unfold option_line, strip. cbn [fst snd].
  change (lstrip ("    " ++ k ++ " " ++ v)) with (lstrip (k ++ String " " v)).
  rewrite lstrip_starts_nonspace by now apply starts_nonspace_app.
  apply rstrip_ends_nonspace, ends_nonspace_app.
  exact (ends_nonspace_app " " v Hv2).
Qed.

Lemma option_lines_of_plain (opts : dict string) :
  plain_options opts = true ->
  Forall full_line (map (fun kv => option_line kv ++ NL) opts)
  /\ Forall (fun l => is_blank l = false)
            (map (fun kv => option_line kv ++ NL) opts).
Proof.
  unfold plain_options. induction opts as [|[k v] opts IH]; [now split|].
  cbn [forallb map fst snd]. intros H. apply andb_prop in H as [Hkv Hopts].
  apply andb_prop in Hkv as [Hk Hv]. destruct (IH Hopts) as [IH1 IH2].
  split; constructor; try assumption.
  - apply full_line_intro, no_linebreak_no_newline.
    now apply (option_line_no_linebreak (k, v)).
  - rewrite is_blank_newline. unfold is_blank.
    rewrite (strip_option_line k v Hk Hv).
    pose proof (proj1 (clean_parts k (proj1 (andb_prop _ _ Hk)))) as Hs.
    destruct k; [discriminate Hs | reflexivity].
Qed.

(** X10 (delete after save): when [save] of a parsable Scheme succeeds
    on a file none of whose lines, once stripped, is the header of the
    Scheme, [delete] of that Scheme then gives back the file as it was
    before the save, with one newline more at its end. *)
Theorem delete_after_save (self : Scheme) (file file' : string) :
  parsable self ->
  Scheme_save self file = (Ok tt, file') ->
  forallb (fun l => negb (is_header (header_of self) l)) (readlines file) = true ->
  Scheme_delete self file' = file ++ NL.
Proof.
  intros Hs Hsave Hfile.
  destruct (save_succeeds _ _ _ Hsave) as (-> & _).
  destruct Hs as (Hi & Hn & _ & Hplain).
  destruct (option_lines_of_plain _ Hplain) as [Hfull Hbody].
  destruct (readlines_then_newline _ (readlines_file_lines file))
    as (ls' & Hls' & Hfull' & Hkeep).
  rewrite join_readlines in Hls'.
  assert (Htext : file ++ NL ++ Scheme_str self
                  = join ls' ++ Scheme_str self).
  { rewrite <- Hls', join_readlines. now rewrite append_assoc. }
  rewrite delete_kept, Htext, (readlines_full_lines _ Hfull').
  rewrite Scheme_str_lines at 1.
  assert (Hlines : Forall full_line
            ((header_of self ++ NL)
             :: map (fun kv => option_line kv ++ NL) (options self))).
  { constructor; [|exact Hfull].
    apply full_line_intro, no_linebreak_no_newline.
    now apply header_no_linebreak. }
  pose proof (readlines_full_lines _ Hlines EmptyString) as Hread.
  rewrite append_nil_r in Hread. cbn [readlines] in Hread.
  rewrite app_nil_r in Hread. rewrite Hread.
  assert (Hnone : Forall (fun l => is_header (header_of self) l = false) ls').
  { specialize (Hkeep _ Hfile). rewrite forallb_forall in Hkeep.
    apply Forall_forall. intros l Hl. now apply negb_true_iff, Hkeep. }
  rewrite (kept_no_header _ _ Hnone).
  pose proof (is_header_header_line self) as Hh.
  unfold is_header, is_blank in Hh. apply andb_prop in Hh as [Hnb Heq].
  apply negb_true_iff in Hnb.
  cbn [kept_lines]. rewrite Hnb, Heq. cbn [negb].
  rewrite <- (app_nil_r (map _ (options self))).
  rewrite (kept_skipping _ _ Hbody). cbn [kept_lines].
  rewrite app_nil_r, <- Hls'. apply join_readlines.
Qed.

Lemma delete_after_save_witness :
  parsable guest
  /\ Scheme_save guest two_stanzas = (Ok tt, two_stanzas ++ NL ++ Scheme_str guest)
  /\ forallb (fun l => negb (is_header (header_of guest) l))
             (readlines two_stanzas) = true
  /\ Scheme_delete guest (two_stanzas ++ NL ++ Scheme_str guest)
     = two_stanzas ++ NL.
Proof.
  assert (H : Scheme_save guest two_stanzas
              = (Ok tt, two_stanzas ++ NL ++ Scheme_str guest))
    by (vm_compute; reflexivity).
  assert (Hf : forallb (fun l => negb (is_header (header_of guest) l))
                 (readlines two_stanzas) = true)
    by (vm_compute; reflexivity).
  exact (conj parsable_guest (conj H (conj Hf
           (delete_after_save guest two_stanzas _ parsable_guest H Hf)))).
Defined.

(** ** Looking up *)

Lemma filter_first (fn : Scheme -> bool) (items : list Scheme) :
  match filter fn items with
  | [] => Forall (fun t => fn t = false) items
  | s :: _ =>
      exists before after,
        items = (before ++ s :: after)%list
        /\ fn s = true
        /\ Forall (fun t => fn t = false) before
  end.
Proof.
  induction items as [|x items IH]; [constructor|].
  cbn [filter]. destruct (fn x) eqn:E.
  - exists [], items. now repeat split.
  - destruct (filter fn items) as [|s l].
    + now constructor.
    + destruct IH as (before & after & -> & Hs & Hb).
      exists (x :: before), after. repeat split; [exact Hs | now constructor].
Qed.

(** X11 (what find returns): [find] returns the first Scheme of the
    file, in file order, that has the interface and the name asked for;
    it returns [None] when the file parses and no Scheme has them; and
    it raises exactly the error the parser raises on the file, wherever
    in the file that is, also after a Scheme that has them. *)
Theorem find_returns_first_match (interface' name' file : string) :
  match Scheme_find interface' name' file with
  | Ok (Some s) =>
      exists before after,
        Scheme_all file = ((before ++ s :: after)%list, None)
        /\ interface s = interface' /\ name s = name'
        /\ Forall (fun t => interface t <> interface' \/ name t <> name') before
  | Ok None =>
      snd (Scheme_all file) = None
      /\ Forall (fun t => interface t <> interface' \/ name t <> name')
                (fst (Scheme_all file))
  | Raise e => snd (Scheme_all file) = Some e
  end.
Proof.
  assert (Hmiss : forall t,
            String.eqb (interface t) interface' && String.eqb (name t) name' = false ->
            interface t <> interface' \/ name t <> name').
  { intros t H. apply andb_false_iff in H as [H|H]; [left | right];
      now apply String.eqb_neq. }
  unfold Scheme_find, Scheme_where, to_list.
  destruct (Scheme_all file) as [items [e|]]; cbn [fst snd]; [reflexivity|].
  pose proof (filter_first
                (fun s => String.eqb (interface s) interface'
                          && String.eqb (name s) name') items) as H.
  cbv beta in H.
  destruct (filter _ items) as [|s l].
  - split; [reflexivity|]. eapply Forall_impl; [|exact H]. exact Hmiss.
  - destruct H as (before & after & -> & Hs & Hb).
    apply andb_prop in Hs as [Hi Hn].
    apply String.eqb_eq in Hi, Hn.
    exists before, after. repeat split; try assumption.
    eapply Forall_impl; [|exact Hb]. exact Hmiss.
Qed.

Example find_in_unreadable_file :
  Scheme_find "wlan0" "home"
    (Scheme_str home ++ NL ++ work_header ++ NL ++ "    wpa-driver" ++ NL)
  = Raise ValueError.
Proof. vm_compute. reflexivity. Qed.

(** ** Arguments and representation *)

(** X12 (the argument vector): [as_args] gives one argument for the
    interface, [<interface>=<interface>-<name>], and then two for each
    option, [-o] and [<key>=<value>], in the order of the mapping. *)
Theorem as_args_shape (self : Scheme) :
  length (Scheme_as_args self) = 1 + 2 * length (options self)
  /\ nth_error (Scheme_as_args self) 0
     = Some (interface self ++ "=" ++ interface self ++ "-" ++ name self)
  /\ forall j k v,
       nth_error (options self) j = Some (k, v) ->
       nth_error (Scheme_as_args self) (1 + 2 * j) = Some "-o"
       /\ nth_error (Scheme_as_args self) (2 + 2 * j) = Some (k ++ "=" ++ v).
Proof.
  unfold Scheme_as_args, Scheme_iface. cbn [app length].
  generalize (options self) as opts. intros opts.
  split; [|split; [reflexivity|]].
  - f_equal. induction opts as [|kv opts IH]; [reflexivity|].
    cbn [flat_map app length]. rewrite IH. lia.
  - induction opts as [|kv opts IH]; intros j k v H.
    + destruct j; discriminate H.
    + destruct j as [|j].
      * injection H as ->. now split.
      * cbn [nth_error] in H. destruct (IH j k v H) as [H1 H2].
        replace (1 + 2 * S j) with (S (S (1 + 2 * j))) by lia.
        replace (2 + 2 * S j) with (S (S (2 + 2 * j))) by lia.
        cbn [flat_map app]. cbn [Nat.add] in H1, H2 |- *.
        cbn [nth_error] in H1, H2 |- *. now split.
Qed.

Lemma repr_char_word (c : ascii) :
  is_word c = true -> repr_char "'" c = String c EmptyString.
Proof.
  destruct c as [[] [] [] [] [] [] [] []]; vm_compute; congruence.
Qed.

Lemma word_is_no_quote (c : ascii) :
  is_word c = true -> Ascii.eqb c "'" = false.
Proof.
  destruct c as [[] [] [] [] [] [] [] []]; vm_compute; congruence.
Qed.

Lemma repr_body_words (s : string) :
  all_chars is_word s = true ->
  repr_body "'" s = s /\ contains_char "'" s = false.
Proof.
  induction s as [|c s IH]; [now split|].
  cbn [all_chars repr_body contains_char]. intros H.
  apply andb_prop in H as [Hc Hs]. destruct (IH Hs) as [-> ->].
  now rewrite (repr_char_word c Hc), (word_is_no_quote c Hc).
Qed.

Lemma repr_str_words (s : string) :
  all_chars is_word s = true -> repr_str s = "'" ++ s ++ "'".
Proof.
  intros H. destruct (repr_body_words s H) as [Hb Hq].
  unfold repr_str, repr_quote. rewrite Hq. cbn [andb]. now rewrite Hb.
Qed.

(** X13 (names in the representation): for a Scheme whose interface and
    name are an interface name and a scheme name of the parser, the
    representation shows both as they are, between single quotes, and
    so does the message of the error [activate] raises. *)
Theorem repr_shows_names (self : Scheme) :
  is_interface_name (interface self) = true ->
  is_scheme_name (name self) = true ->
  Scheme_repr self
  = "Scheme(interface='" ++ interface self ++ "', name='" ++ name self
    ++ "', options=" ++ repr_dict (options self).
Proof.
  intros Hi Hn. unfold Scheme_repr.
  assert (Hiw : all_chars is_word (interface self) = true).
  { destruct (interface_name_cases _ Hi) as [->|[d [Hd ->]]]; [reflexivity|].
    cbn [append all_chars]. now rewrite (digit_is_word d Hd). }
  unfold is_scheme_name in Hn. apply andb_prop in Hn as [_ Hnw].
  rewrite (repr_str_words _ Hiw), (repr_str_words _ Hnw).
  now rewrite !append_assoc.
Qed.

Lemma repr_shows_names_witness :
  is_interface_name (interface guest) = true
  /\ is_scheme_name (name guest) = true
  /\ Scheme_repr guest
     = "Scheme(interface='" ++ interface guest ++ "', name='" ++ name guest
       ++ "', options=" ++ repr_dict (options guest).
Proof.
  assert (Hi : is_interface_name (interface guest) = true)
    by (vm_compute; reflexivity).
  assert (Hn : is_scheme_name (name guest) = true) by (vm_compute; reflexivity).
  exact (conj Hi (conj Hn (repr_shows_names guest Hi Hn))).
Defined.

(** ** Files written by [save] *)

Lemma save_each_cons (s : Scheme) (schemes : list Scheme) (file file' : string) :
  save_each (s :: schemes) file = (Ok tt, file') ->
  Scheme_save s file = (Ok tt, file ++ NL ++ Scheme_str s)
  /\ save_each schemes (file ++ NL ++ Scheme_str s) = (Ok tt, file').
Proof.
  cbn [save_each]. destruct (Scheme_save s file) as [[[]|e] f] eqn:E.
  - destruct (save_succeeds _ _ _ E) as [-> _]. now split.
  - destruct schemes; discriminate.
Qed.

(** X14 (listing after several saves): when the schemes of a list, all
    parsable, are saved in turn into a file that parses and every
    [save] succeeds, the file then lists the schemes it listed before
    followed by the saved ones in the order of saving, and parses
    without error. *)
Theorem all_after_saves (schemes : list Scheme) :
  forall (file file' : string) (items : list Scheme),
    Forall parsable schemes ->
    Scheme_all file = (items, None) ->
    save_each schemes file = (Ok tt, file') ->
    Scheme_all file' = ((items ++ schemes)%list, None).
Proof.
  induction schemes as [|s schemes IH]; intros file file' items Hall Hfile Hsave.
  - cbn [save_each] in Hsave. injection Hsave as <-.
    now rewrite app_nil_r.
  - destruct (save_each_cons _ _ _ _ Hsave) as [Hs Hrest].
    inversion Hall as [|? ? Hp Hps]; subst.
    assert (Hnext : Scheme_all (file ++ NL ++ Scheme_str s)
                    = ((items ++ [s])%list, None))
      by (unfold Scheme_all in *; now apply extract_schemes_after).
    rewrite (IH _ _ _ Hps Hnext Hrest). now rewrite <- app_assoc.
Qed.

Lemma all_after_saves_witness :
  Forall parsable [guest; home]
  /\ Scheme_all EmptyString = ([], None)
  /\ save_each [guest; home] EmptyString
     = (Ok tt, NL ++ Scheme_str guest ++ NL ++ Scheme_str home)
  /\ Scheme_all (NL ++ Scheme_str guest ++ NL ++ Scheme_str home)
     = ([guest; home], None).
Proof.
  assert (Hp : Forall parsable [guest; home]).
  { repeat constructor; try (vm_compute; reflexivity);
      cbn; intuition discriminate. }
  assert (Hs : save_each [guest; home] EmptyString
               = (Ok tt, NL ++ Scheme_str guest ++ NL ++ Scheme_str home))
    by (vm_compute; reflexivity).
  exact (conj Hp (conj eq_refl (conj Hs
           (all_after_saves [guest; home] EmptyString _ [] Hp eq_refl Hs)))).
Defined.

Lemma join_stanza_lines (t : Scheme) :
  join (stanza_lines t) = NL ++ Scheme_str t.
Proof.
  unfold stanza_lines. rewrite (Scheme_str_lines t). reflexivity.
Qed.

Lemma save_each_text (schemes : list Scheme) :
  forall file file' : string,
    save_each schemes file = (Ok tt, file') ->
    file' = file ++ join (flat_map stanza_lines schemes).
Proof.
  induction schemes as [|s schemes IH]; intros file file' H.
  - cbn [save_each] in H. injection H as <-. cbn. now rewrite append_nil_r.
  - destruct (save_each_cons _ _ _ _ H) as [_ Hrest].
    rewrite (IH _ _ Hrest). cbn [flat_map].
    rewrite join_app, join_stanza_lines. now rewrite !append_assoc.
Qed.

Lemma stanza_lines_full (t : Scheme) :
  parsable t -> Forall full_line (stanza_lines t).
Proof.
  intros (Hi & Hn & _ & Hplain). unfold stanza_lines.
  constructor; [exact (full_line_intro EmptyString eq_refl)|].
  constructor; [|exact (proj1 (option_lines_of_plain _ Hplain))].
  apply full_line_intro, no_linebreak_no_newline.
  now apply header_no_linebreak.
Qed.

Lemma readlines_stanzas (schemes : list Scheme) :
  Forall parsable schemes ->
  readlines (join (flat_map stanza_lines schemes)) = flat_map stanza_lines schemes.
Proof.
  intros Hall.
  assert (Hfull : Forall full_line (flat_map stanza_lines schemes)).
  { induction Hall as [|t ts Ht Hts IH]; [constructor|].
    cbn [flat_map]. apply Forall_app. split; [now apply stanza_lines_full | exact IH]. }
  pose proof (readlines_full_lines _ Hfull EmptyString) as H.
  rewrite append_nil_r in H. cbn [readlines] in H. now rewrite app_nil_r in H.
Qed.

Lemma header_eqb_same_pair (s t : Scheme) :
  parsable s -> parsable t ->
  String.eqb (header_of t) (header_of s) = same_pair s t.
Proof.
  intros (Hsi & Hsn & _) (Hti & Htn & _). unfold same_pair.
  destruct (String.eqb_spec (header_of t) (header_of s)) as [Heq|Hne].
  - pose proof (scheme_re_match_header _ _ Hti Htn) as Ht.
    pose proof (scheme_re_match_header _ _ Hsi Hsn) as Hs.
    unfold header_of in Heq. rewrite Heq, Hs in Ht.
    injection Ht as -> ->. now rewrite !String.eqb_refl.
  - symmetry. apply andb_false_iff.
    destruct (String.eqb_spec (interface t) (interface s)) as [Hi|]; [|now left].
    destruct (String.eqb_spec (name t) (name s)) as [Hn|]; [|now right].
    exfalso. apply Hne. unfold header_of. now rewrite Hi, Hn.
Qed.

Lemma option_lines_no_header (s t : Scheme) :
  plain_options (options t) = true ->
  no_option_reads_as_header s t = true ->
  Forall (fun l => is_header (header_of s) l = false)
         (map (fun kv => option_line kv ++ NL) (options t)).
Proof.
  unfold plain_options, no_option_reads_as_header.
  induction (options t) as [|[k v] opts IH]; [constructor|].
  cbn [forallb map fst snd]. intros Hp Hn.
  apply andb_prop in Hp as [Hkv Hp]. apply andb_prop in Hkv as [Hk Hv].
  apply andb_prop in Hn as [Hkvn Hn]. apply negb_true_iff in Hkvn.
  constructor; [|now apply IH].
  rewrite is_header_newline. unfold is_header.
  rewrite (strip_option_line k v Hk Hv).
  change (k ++ String " " v) with (k ++ " " ++ v).
  rewrite Hkvn. apply andb_false_r.
Qed.

Lemma kept_stanzas (s : Scheme) (schemes : list Scheme) :
  parsable s ->
  Forall parsable schemes ->
  forallb (no_option_reads_as_header s) schemes = true ->
  forall skip,
    kept_lines (header_of s) skip (flat_map stanza_lines schemes)
    = flat_map (lines_left s) schemes.
Proof.
  intros Hs Hall. induction Hall as [|t ts Ht Hts IH]; intros Hno skip.
  - reflexivity.
  - cbn [forallb] in Hno. apply andb_prop in Hno as [Hnot Hno].
    specialize (IH Hno).
    cbn [flat_map]. unfold stanza_lines at 1. unfold lines_left at 1.
    cbn [app].
    change (kept_lines (header_of s) skip (NL :: ?rest))
      with (NL :: kept_lines (header_of s) false rest).
    pose proof (is_header_header_line t) as Hh.
    rewrite is_header_newline in Hh. unfold is_header, is_blank in Hh.
    apply andb_prop in Hh as [Hnb _]. apply negb_true_iff in Hnb.
    pose proof (strip_app_space (header_of t) NL eq_refl) as Hstrip.
    rewrite strip_header_of in Hstrip.
    cbn [kept_lines]. rewrite Hstrip.
    assert (Hne : is_empty (header_of t) = false) by reflexivity.
    rewrite Hne, (header_eqb_same_pair s t Hs Ht).
    destruct Ht as (_ & _ & _ & Hplain).
    destruct (same_pair s t) eqn:Hsame; cbn [negb].
    + rewrite (kept_skipping _ _ (proj2 (option_lines_of_plain _ Hplain))).
      now rewrite IH.
    + rewrite (kept_no_header _ _ (option_lines_no_header s t Hplain Hnot)).
      now rewrite IH.
Qed.

Lemma extract_schemes_newline (file : string) (items : list Scheme) :
  extract_schemes file = (items, None) ->
  extract_schemes (file ++ NL) = (items, None).
Proof.
  unfold extract_schemes. intros H.
  change (file ++ NL) with (file ++ String LF EmptyString).
  destruct (splitlines_then_newline file EmptyString) as (sep & Hsep & ->).
  cbn [splitlines]. rewrite app_nil_r.
  rewrite (extract_lines_app _ sep items H).
  - destruct Hsep as [->| ->]; cbn; now rewrite app_nil_r.
  - destruct Hsep as [->| ->]; reflexivity.
Qed.

Lemma extract_schemes_lines_left (s : Scheme) (schemes : list Scheme) :
  Forall parsable schemes ->
  extract_schemes (join (flat_map (lines_left s) schemes))
  = (filter (fun t => negb (same_pair s t)) schemes, None).
Proof.
  induction schemes as [|t ts IH] using rev_ind; intros Hall; [reflexivity|].
  apply Forall_app in Hall as [Hts Ht]. inversion Ht as [|? ? Hpt _]; subst.
  rewrite flat_map_app, join_app, filter_app. cbn [flat_map filter].
  rewrite app_nil_r. unfold lines_left at 2.
  destruct (same_pair s t); cbn [negb].
  - rewrite app_nil_r. cbn [join]. rewrite append_nil_r.
    now apply extract_schemes_newline, IH.
  - rewrite join_stanza_lines. now apply extract_schemes_after, IH.
Qed.

Lemma delete_saved_text (s : Scheme) (schemes : list Scheme) (file : string) :
  parsable s ->
  Forall parsable schemes ->
  forallb (no_option_reads_as_header s) schemes = true ->
  save_each schemes EmptyString = (Ok tt, file) ->
  Scheme_delete s file = join (flat_map (lines_left s) schemes).
Proof.
  intros Hs Hall Hno Hsave.
  rewrite (save_each_text _ _ _ Hsave). cbn [append].
  rewrite delete_kept, (readlines_stanzas _ Hall).
  now rewrite (kept_stanzas s schemes Hs Hall Hno).
Qed.

Lemma filter_others_none (s : Scheme) (schemes : list Scheme) :
  filter (fun t => String.eqb (interface t) (interface s)
                   && String.eqb (name t) (name s))
         (filter (fun t => negb (same_pair s t)) schemes) = [].
Proof.
  induction schemes as [|t ts IH]; [reflexivity|].
  cbn [filter]. unfold same_pair at 1.
  destruct (String.eqb (interface t) (interface s)
            && String.eqb (name t) (name s)) eqn:E; cbn [negb filter].
  - exact IH.
  - now rewrite E.
Qed.

(** X15 (listing after a delete): when a file was written by saving
    parsable schemes in turn into an empty file, and no option line of
    theirs reads as the header of the parsable Scheme [s], then after
    [delete] of [s] the file lists the saved schemes but the one with
    the interface and name of [s], in the same order, and parses
    without error. *)
Theorem all_after_delete (s : Scheme) (schemes : list Scheme) (file : string) :
  parsable s ->
  Forall parsable schemes ->
  forallb (no_option_reads_as_header s) schemes = true ->
  save_each schemes EmptyString = (Ok tt, file) ->
  Scheme_all (Scheme_delete s file)
  = (filter (fun t => negb (same_pair s t)) schemes, None).
Proof.
  intros Hs Hall Hno Hsave. unfold Scheme_all.
  rewrite (delete_saved_text s schemes file Hs Hall Hno Hsave).
  now apply extract_schemes_lines_left.
Qed.

(** X16 (find after delete): under the same conditions, [find] with
    the interface and name of the deleted Scheme returns [None]. *)
Theorem find_after_delete (s : Scheme) (schemes : list Scheme) (file : string) :
  parsable s ->
  Forall parsable schemes ->
  forallb (no_option_reads_as_header s) schemes = true ->
  save_each schemes EmptyString = (Ok tt, file) ->
  Scheme_find (interface s) (name s) (Scheme_delete s file) = Ok None.
Proof.
  intros Hs Hall Hno Hsave.
  unfold Scheme_find, Scheme_where, Scheme_all, to_list.
  rewrite (delete_saved_text s schemes file Hs Hall Hno Hsave).
  rewrite (extract_schemes_lines_left s schemes Hall). cbn [fst snd].
  now rewrite filter_others_none.
Qed.

Lemma parsable_home : parsable home.
Proof.
  repeat split; try (vm_compute; reflexivity).
  repeat (apply NoDup_cons; [cbn; intuition discriminate|]). apply NoDup_nil.
Qed.

Lemma all_after_delete_witness :
  parsable home
  /\ Forall parsable [guest; home]
  /\ forallb (no_option_reads_as_header home) [guest; home] = true
  /\ save_each [guest; home] EmptyString
     = (Ok tt, NL ++ Scheme_str guest ++ NL ++ Scheme_str home)
  /\ Scheme_all (Scheme_delete home (NL ++ Scheme_str guest ++ NL ++ Scheme_str home))
     = ([guest], None).
Proof.
  assert (Hp : Forall parsable [guest; home])
    by exact (Forall_cons _ parsable_guest
                (Forall_cons _ parsable_home (Forall_nil _))).
  assert (Hn : forallb (no_option_reads_as_header home) [guest; home] = true)
    by (vm_compute; reflexivity).
  assert (Hs : save_each [guest; home] EmptyString
               = (Ok tt, NL ++ Scheme_str guest ++ NL ++ Scheme_str home))
    by (vm_compute; reflexivity).
  exact (conj parsable_home (conj Hp (conj Hn (conj Hs
           (all_after_delete home [guest; home] _ parsable_home Hp Hn Hs))))).
Defined.

Lemma find_after_delete_witness :
  parsable home
  /\ Forall parsable [guest; home]
  /\ forallb (no_option_reads_as_header home) [guest; home] = true
  /\ save_each [guest; home] EmptyString
     = (Ok tt, NL ++ Scheme_str guest ++ NL ++ Scheme_str home)
  /\ Scheme_find "wlan0" "home"
       (Scheme_delete home (NL ++ Scheme_str guest ++ NL ++ Scheme_str home))
     = Ok None.
Proof.
  assert (Hp : Forall parsable [guest; home])
    by exact (Forall_cons _ parsable_guest
                (Forall_cons _ parsable_home (Forall_nil _))).
  assert (Hn : forallb (no_option_reads_as_header home) [guest; home] = true)
    by (vm_compute; reflexivity).
  assert (Hs : save_each [guest; home] EmptyString
               = (Ok tt, NL ++ Scheme_str guest ++ NL ++ Scheme_str home))
    by (vm_compute; reflexivity).
  exact (conj parsable_home (conj Hp (conj Hn (conj Hs
           (find_after_delete home [guest; home] _ parsable_home Hp Hn Hs))))).
Defined.

Example delete_takes_the_next_stanza_too :
  Scheme_delete home (Scheme_str home ++ Scheme_str guest) = EmptyString.
Proof. vm_compute. reflexivity. Qed.

Example delete_misses_another_header :
  Scheme_find "wlan0" "home"
    (Scheme_delete home ("iface wlan0-home inet static" ++ NL))
  = Ok (Some {| interface := "wlan0"; name := "home"; options := [] |}).
Proof. vm_compute. reflexivity. Qed.

Lemma filter_no_pair (s : Scheme) (items : list Scheme) :
  ~ In (pair_of s) (map pair_of items) ->
  filter (fun t => String.eqb (interface t) (interface s)
                   && String.eqb (name t) (name s)) items = [].
Proof.
  induction items as [|t ts IH]; [reflexivity|].
  cbn [map filter In]. intros H.
  destruct (String.eqb (interface t) (interface s)
            && String.eqb (name t) (name s)) eqn:E.
  - exfalso. apply H. left. apply andb_prop in E as [Hi Hn].
    apply String.eqb_eq in Hi, Hn. unfold pair_of. now rewrite Hi, Hn.
  - apply IH. intros Hin. apply H. now right.
Qed.

(** X17 (saves that succeed): when the schemes of a list are parsable
    and the pairs of interface and name of the schemes of the file and
    of the list are pairwise distinct, saving the list in turn into the
    file succeeds at every step, and the file is then the old text
    followed, for each Scheme, by a newline and its text. *)
Theorem saves_succeed (schemes : list Scheme) :
  forall (file : string) (items : list Scheme),
    Forall parsable schemes ->
    Scheme_all file = (items, None) ->
    NoDup (map pair_of (items ++ schemes)) ->
    save_each schemes file
    = (Ok tt, file ++ join (map (fun s => NL ++ Scheme_str s) schemes)).
Proof.
  induction schemes as [|s schemes IH]; intros file items Hall Hfile Hdup.
  - cbn. now rewrite append_nil_r.
  - inversion Hall as [|? ? Hp Hps]; subst.
    assert (Hfresh : ~ In (pair_of s) (map pair_of items)).
    { rewrite map_app in Hdup. cbn [map] in Hdup.
      apply NoDup_remove_2 in Hdup. intros Hin. apply Hdup, in_or_app. now left. }
    assert (Hsave : Scheme_save s file = (Ok tt, file ++ NL ++ Scheme_str s)).
    { unfold Scheme_save, Scheme_find, Scheme_where, to_list.
      rewrite Hfile. cbn [fst snd]. now rewrite (filter_no_pair s items Hfresh). }
    cbn [save_each]. rewrite Hsave.
    assert (Hnext : Scheme_all (file ++ NL ++ Scheme_str s)
                    = ((items ++ [s])%list, None))
      by (unfold Scheme_all in *; now apply extract_schemes_after).
    rewrite (IH _ _ Hps Hnext) by now rewrite <- app_assoc.
    cbn [map join]. now rewrite !append_assoc.
Qed.

Lemma saves_succeed_witness :
  Forall parsable [guest; home]
  /\ Scheme_all EmptyString = ([], None)
  /\ NoDup (map pair_of ([] ++ [guest; home]))
  /\ save_each [guest; home] EmptyString
     = (Ok tt,
        EmptyString ++ join (map (fun s => NL ++ Scheme_str s) [guest; home])).
Proof.
  assert (Hp : Forall parsable [guest; home])
    by exact (Forall_cons _ parsable_guest
                (Forall_cons _ parsable_home (Forall_nil _))).
  assert (Hd : NoDup (map pair_of ([] ++ [guest; home]))).
  { repeat (apply NoDup_cons; [cbn; intuition discriminate|]). apply NoDup_nil. }
  exact (conj Hp (conj eq_refl (conj Hd
           (saves_succeed [guest; home] EmptyString [] Hp eq_refl Hd)))).
Defined.
